(** * A shallow embedding of the Game Boy emulator core

    The development follows the TypeScript sources: the register set, the
    flag primitives, the table [o] of operations, the dispatch tables
    [oMap] and [oCbMap] and [Cpu.cycle] of [cpu.ts] (in its later version,
    the one with the CB table), [Gpu.step], and the two [Mmu] classes
    behind the [IMemory] interface.  JavaScript numbers are integers
    throughout this code, so they are modelled by [Z]; the bitwise
    operators go through [ToInt32] as the language prescribes.  Mutation
    of the register object and of the memory object is explicit state
    passing. *)

From Stdlib Require Import ZArith List String Ascii Lia HexString.
From stdpp Require Import base list.
Import ListNotations.
Open Scope Z_scope.

(** ** JavaScript integer operators *)

(** The conversion applied to both operands of every bitwise operator. *)
Definition ToInt32 (x : Z) : Z := (x + 2 ^ 31) mod 2 ^ 32 - 2 ^ 31.

(** [x & y], [x | y], [x ^ y], [~x], [x << y], [x >> y]. *)
Definition js_and (x y : Z) : Z := Z.land (ToInt32 x) (ToInt32 y).
Definition js_or (x y : Z) : Z := Z.lor (ToInt32 x) (ToInt32 y).
Definition js_xor (x y : Z) : Z := Z.lxor (ToInt32 x) (ToInt32 y).
Definition js_not (x : Z) : Z := Z.lnot (ToInt32 x).
Definition js_shl (x y : Z) : Z := ToInt32 (Z.shiftl (ToInt32 x) (Z.land y 31)).
Definition js_sar (x y : Z) : Z := Z.shiftr (ToInt32 x) (Z.land y 31).

(** A number used as a condition is true unless it is zero. *)
Definition truthy (x : Z) : bool := negb (x =? 0).

(** [x.toString(16)] on an integer. *)
Definition toString16 (x : Z) : string :=
  match x with
  | Z0 => "0"%string
  | Zpos p => HexString.Raw.of_pos p EmptyString
  | Zneg p => String "-"%char (HexString.Raw.of_pos p EmptyString)
  end.

(** ** The register set *)

Record IRegisterSet := {
  a : Z; b : Z; c : Z; d : Z; e : Z; h : Z; l : Z;
  f : Z;   (* | Z | N | H | C | 0 | 0 | 0 | 0 | *)
  pc : Z;  (* program counter *)
  sp : Z   (* stack pointer *)
}.

(** [keyof IRegisterSet]: the property names, for [r[key]]. *)
Inductive keyof_IRegisterSet := ka | kb | kc | kd | ke | kh | kl | kf | kpc | ksp.

Definition get (r : IRegisterSet) (key : keyof_IRegisterSet) : Z :=
  match key with
  | ka => r.(a) | kb => r.(b) | kc => r.(c) | kd => r.(d) | ke => r.(e)
  | kh => r.(h) | kl => r.(l) | kf => r.(f) | kpc => r.(pc) | ksp => r.(sp)
  end.

Definition set (r : IRegisterSet) (key : keyof_IRegisterSet) (v : Z) : IRegisterSet :=
  let (a0, b0, c0, d0, e0, h0, l0, f0, pc0, sp0) := r in
  match key with
  | ka => Build_IRegisterSet v b0 c0 d0 e0 h0 l0 f0 pc0 sp0
  | kb => Build_IRegisterSet a0 v c0 d0 e0 h0 l0 f0 pc0 sp0
  | kc => Build_IRegisterSet a0 b0 v d0 e0 h0 l0 f0 pc0 sp0
  | kd => Build_IRegisterSet a0 b0 c0 v e0 h0 l0 f0 pc0 sp0
  | ke => Build_IRegisterSet a0 b0 c0 d0 v h0 l0 f0 pc0 sp0
  | kh => Build_IRegisterSet a0 b0 c0 d0 e0 v l0 f0 pc0 sp0
  | kl => Build_IRegisterSet a0 b0 c0 d0 e0 h0 v f0 pc0 sp0
  | kf => Build_IRegisterSet a0 b0 c0 d0 e0 h0 l0 v pc0 sp0
  | kpc => Build_IRegisterSet a0 b0 c0 d0 e0 h0 l0 f0 v sp0
  | ksp => Build_IRegisterSet a0 b0 c0 d0 e0 h0 l0 f0 pc0 v
  end.

Notation "r .[ key ]" := (get r key)
  (at level 1, left associativity, format "r .[ key ]").
Notation "r .[ key <- v ]" := (set r key v)
  (at level 1, left associativity, format "r .[ key  <-  v ]").

(** [r[key]++] yields the old value, [--r[key]] the new one. *)
Definition postinc (r : IRegisterSet) (key : keyof_IRegisterSet) : Z * IRegisterSet :=
  (r.[key], r.[key <- r.[key] + 1]).
Definition predec (r : IRegisterSet) (key : keyof_IRegisterSet) : Z * IRegisterSet :=
  (r.[key] - 1, r.[key <- r.[key] - 1]).

Module Flags.
Definition Z : BinNums.Z := 0x80. (* 0b10000000 *)
Definition N : BinNums.Z := 0x40. (* 0b01000000 *)
Definition H : BinNums.Z := 0x20. (* 0b00100000 *)
Definition C : BinNums.Z := 0x10. (* 0b00010000 *)
End Flags.

(** ** Flag and arithmetic helpers *)

(** Resets flags after an operation, setting Z appropriately. *)
Definition resetFlags (r : IRegisterSet) (result : Z) : IRegisterSet :=
  let r := r.[kf <- 0] in
  if js_and result 255 =? 0 then r.[kf <- js_or r.(f) Flags.Z] else r.

Definition add (r : IRegisterSet) (value : Z) : IRegisterSet :=
  let r := r.[ka <- r.(a) + value] in
  let r := resetFlags r r.(a) in
  let r := if 255 <? r.(a) then r.[kf <- js_or r.(f) Flags.C] else r in
  r.[ka <- js_and r.(a) 255].

Definition sub (r : IRegisterSet) (value : Z) : IRegisterSet :=
  let r := r.[ka <- r.(a) - value] in
  let r := resetFlags r r.(a) in
  let r := r.[kf <- js_or r.(f) Flags.N] in
  let r := if r.(a) <? 0 then r.[kf <- js_or r.(f) Flags.C] else r in
  r.[ka <- js_and r.(a) 255].

Definition and_ (r : IRegisterSet) (value : Z) : IRegisterSet :=
  let r := r.[ka <- js_and r.(a) value] in
  let r := resetFlags r r.(a) in
  let r := if 255 <? r.(a) then r.[kf <- js_or r.(f) Flags.C] else r in
  let r := r.[kf <- js_or r.(f) Flags.H] in
  r.[ka <- js_and r.(a) 255].

Definition or_ (r : IRegisterSet) (value : Z) : IRegisterSet :=
  let r := r.[ka <- js_or r.(a) value] in
  let r := resetFlags r r.(a) in
  r.[ka <- js_and r.(a) 255].

Definition xor (r : IRegisterSet) (value : Z) : IRegisterSet :=
  let r := r.[ka <- js_xor r.(a) value] in
  let r := resetFlags r r.(a) in
  r.[ka <- js_and r.(a) 255].

Definition cp (r : IRegisterSet) (value : Z) : IRegisterSet :=
  let v := r.(a) - value in
  let r := resetFlags r v in
  let r := r.[kf <- js_or r.(f) Flags.N] in
  if v <? 0 then r.[kf <- js_or r.(f) Flags.C] else r.

(** [max] defaults to 255 in the source; every call passes it here. *)
Definition inc (r : IRegisterSet) (key : keyof_IRegisterSet) (max : Z) : IRegisterSet :=
  let r := r.[key <- js_and (r.[key] + 1) max] in
  resetFlags r r.[key].

Definition inc2 (r : IRegisterSet) (key1 key2 : keyof_IRegisterSet) : IRegisterSet :=
  let r := r.[key2 <- js_and (r.[key2] + 1) 255] in
  if r.[key2] =? 0 then r.[key1 <- js_and (r.[key1] + 1) 255] else r.

Definition dec (r : IRegisterSet) (key : keyof_IRegisterSet) (max : Z) : IRegisterSet :=
  let r := r.[key <- js_and (r.[key] - 1) max] in
  resetFlags r r.[key].

Definition dec2 (r : IRegisterSet) (key1 key2 : keyof_IRegisterSet) : IRegisterSet :=
  let r := r.[key2 <- js_and (r.[key2] - 1) 255] in
  if r.[key2] =? 0 then r.[key1 <- js_and (r.[key1] - 1) 255] else r.

(** The sum [hl] only decides the carry; the pair itself is not written. *)
Definition addHl (r : IRegisterSet) (value : Z) : IRegisterSet :=
  let hl := js_shl r.(h) (8 + r.(l) + value) in
  let r := r.[kf <- 0] in
  if 65535 <? hl then r.[kf <- js_or r.(f) Flags.C] else r.

Definition swap (r : IRegisterSet) (key : keyof_IRegisterSet) : IRegisterSet :=
  let r := r.[key <- js_and (js_or (js_sar r.[key] 4) (js_shl r.[key] 4)) 255] in
  resetFlags r r.[key].

Definition toSigned (v : Z) : Z :=
  if v <=? 127 then v else - (js_and (js_not v + 1) 255).

(** ** The memory interface *)

Class IMemory (M : Type) := {
  rb : M -> Z -> Z;       (* read byte *)
  rw : M -> Z -> Z;       (* read 16-bit word *)
  wb : M -> Z -> Z -> M;  (* write byte *)
  ww : M -> Z -> Z -> M   (* write 16-bit word *)
}.

(** An operation mutates the registers and the memory and returns its
    cost in cycles. *)
Definition IOperation (M : Type) : Type := IRegisterSet -> M -> Z * IRegisterSet * M.

Definition createOp {M : Type} (f : IRegisterSet -> M -> IRegisterSet * M) (cycles : Z)
  : IOperation M :=
  fun r m => let '(r, m) := f r m in (cycles, r, m).

(** ** The operations [o] *)

Module o.
Section Operations.
Context {M : Type} `{!IMemory M}.

Definition LD_A_A : IOperation M :=
  createOp (fun r m => let r := r.[ka <- r.(a)] in (r, m)) 1.
Definition LD_A_B : IOperation M :=
  createOp (fun r m => let r := r.[ka <- r.(b)] in (r, m)) 1.
Definition LD_A_C : IOperation M :=
  createOp (fun r m => let r := r.[ka <- r.(c)] in (r, m)) 1.
Definition LD_A_D : IOperation M :=
  createOp (fun r m => let r := r.[ka <- r.(d)] in (r, m)) 1.
Definition LD_A_E : IOperation M :=
  createOp (fun r m => let r := r.[ka <- r.(e)] in (r, m)) 1.
Definition LD_A_H : IOperation M :=
  createOp (fun r m => let r := r.[ka <- r.(h)] in (r, m)) 1.
Definition LD_A_L : IOperation M :=
  createOp (fun r m => let r := r.[ka <- r.(l)] in (r, m)) 1.
Definition LD_A_BC : IOperation M :=
  createOp (fun r m => let r := r.[ka <- rb m (js_shl r.(b) (8 + r.(c)))] in (r, m)) 2.
Definition LD_A_DE : IOperation M :=
  createOp (fun r m => let r := r.[ka <- rb m (js_shl r.(d) (8 + r.(e)))] in (r, m)) 2.
Definition LD_A_HL : IOperation M :=
  createOp (fun r m => let r := r.[ka <- rb m (js_shl r.(h) (8 + r.(l)))] in (r, m)) 2.
Definition LD_A_nn : IOperation M :=
  createOp (fun r m =>
    let r := r.[ka <- rb m (rw m r.(pc))] in
    let r := r.[kpc <- r.(pc) + 2] in
    (r, m)) 4.
Definition LD_A_n : IOperation M :=
  createOp (fun r m => let '(pc0, r) := postinc r kpc in let r := r.[ka <- rb m pc0] in (r, m)) 2.
Definition LD_B_A : IOperation M :=
  createOp (fun r m => let r := r.[kb <- r.(a)] in (r, m)) 1.
Definition LD_B_B : IOperation M :=
  createOp (fun r m => let r := r.[kb <- r.(b)] in (r, m)) 1.
Definition LD_B_C : IOperation M :=
  createOp (fun r m => let r := r.[kb <- r.(c)] in (r, m)) 1.
Definition LD_B_D : IOperation M :=
  createOp (fun r m => let r := r.[kb <- r.(d)] in (r, m)) 1.
Definition LD_B_E : IOperation M :=
  createOp (fun r m => let r := r.[kb <- r.(e)] in (r, m)) 1.
Definition LD_B_H : IOperation M :=
  createOp (fun r m => let r := r.[kb <- r.(h)] in (r, m)) 1.
Definition LD_B_L : IOperation M :=
  createOp (fun r m => let r := r.[kb <- r.(l)] in (r, m)) 1.
Definition LD_B_BC : IOperation M :=
  createOp (fun r m => let r := r.[kb <- rb m (js_shl r.(b) (8 + r.(c)))] in (r, m)) 2.
Definition LD_B_DE : IOperation M :=
  createOp (fun r m => let r := r.[kb <- rb m (js_shl r.(d) (8 + r.(e)))] in (r, m)) 2.
Definition LD_B_HL : IOperation M :=
  createOp (fun r m => let r := r.[kb <- rb m (js_shl r.(h) (8 + r.(l)))] in (r, m)) 2.
Definition LD_B_nn : IOperation M :=
  createOp (fun r m =>
    let r := r.[kb <- rb m (rw m r.(pc))] in
    let r := r.[kpc <- r.(pc) + 2] in
    (r, m)) 4.
Definition LD_B_n : IOperation M :=
  createOp (fun r m => let '(pc0, r) := postinc r kpc in let r := r.[kb <- rb m pc0] in (r, m)) 2.
Definition LD_C_A : IOperation M :=
  createOp (fun r m => let r := r.[kc <- r.(a)] in (r, m)) 1.
Definition LD_C_B : IOperation M :=
  createOp (fun r m => let r := r.[kc <- r.(b)] in (r, m)) 1.
Definition LD_C_C : IOperation M :=
  createOp (fun r m => let r := r.[kc <- r.(c)] in (r, m)) 1.
Definition LD_C_D : IOperation M :=
  createOp (fun r m => let r := r.[kc <- r.(d)] in (r, m)) 1.
Definition LD_C_E : IOperation M :=
  createOp (fun r m => let r := r.[kc <- r.(e)] in (r, m)) 1.
Definition LD_C_H : IOperation M :=
  createOp (fun r m => let r := r.[kc <- r.(h)] in (r, m)) 1.
Definition LD_C_L : IOperation M :=
  createOp (fun r m => let r := r.[kc <- r.(l)] in (r, m)) 1.
Definition LD_C_BC : IOperation M :=
  createOp (fun r m => let r := r.[kc <- rb m (js_shl r.(b) (8 + r.(c)))] in (r, m)) 2.
Definition LD_C_DE : IOperation M :=
  createOp (fun r m => let r := r.[kc <- rb m (js_shl r.(d) (8 + r.(e)))] in (r, m)) 2.
Definition LD_C_HL : IOperation M :=
  createOp (fun r m => let r := r.[kc <- rb m (js_shl r.(h) (8 + r.(l)))] in (r, m)) 2.
Definition LD_C_nn : IOperation M :=
  createOp (fun r m =>
    let r := r.[kc <- rb m (rw m r.(pc))] in
    let r := r.[kpc <- r.(pc) + 2] in
    (r, m)) 4.
Definition LD_C_n : IOperation M :=
  createOp (fun r m => let '(pc0, r) := postinc r kpc in let r := r.[kc <- rb m pc0] in (r, m)) 2.
Definition LD_D_A : IOperation M :=
  createOp (fun r m => let r := r.[kd <- r.(a)] in (r, m)) 1.
Definition LD_D_B : IOperation M :=
  createOp (fun r m => let r := r.[kd <- r.(b)] in (r, m)) 1.
Definition LD_D_C : IOperation M :=
  createOp (fun r m => let r := r.[kd <- r.(c)] in (r, m)) 1.
Definition LD_D_D : IOperation M :=
  createOp (fun r m => let r := r.[kd <- r.(d)] in (r, m)) 1.
Definition LD_D_E : IOperation M :=
  createOp (fun r m => let r := r.[kd <- r.(e)] in (r, m)) 1.
Definition LD_D_H : IOperation M :=
  createOp (fun r m => let r := r.[kd <- r.(h)] in (r, m)) 1.
Definition LD_D_L : IOperation M :=
  createOp (fun r m => let r := r.[kd <- r.(l)] in (r, m)) 1.
Definition LD_D_BC : IOperation M :=
  createOp (fun r m => let r := r.[kd <- rb m (js_shl r.(b) (8 + r.(c)))] in (r, m)) 2.
Definition LD_D_DE : IOperation M :=
  createOp (fun r m => let r := r.[kd <- rb m (js_shl r.(d) (8 + r.(e)))] in (r, m)) 2.
Definition LD_D_HL : IOperation M :=
  createOp (fun r m => let r := r.[kd <- rb m (js_shl r.(h) (8 + r.(l)))] in (r, m)) 2.
Definition LD_D_nn : IOperation M :=
  createOp (fun r m =>
    let r := r.[kd <- rb m (rw m r.(pc))] in
    let r := r.[kpc <- r.(pc) + 2] in
    (r, m)) 4.
Definition LD_D_n : IOperation M :=
  createOp (fun r m => let '(pc0, r) := postinc r kpc in let r := r.[kd <- rb m pc0] in (r, m)) 2.
Definition LD_E_A : IOperation M :=
  createOp (fun r m => let r := r.[ke <- r.(a)] in (r, m)) 1.
Definition LD_E_B : IOperation M :=
  createOp (fun r m => let r := r.[ke <- r.(b)] in (r, m)) 1.
Definition LD_E_C : IOperation M :=
  createOp (fun r m => let r := r.[ke <- r.(c)] in (r, m)) 1.
Definition LD_E_D : IOperation M :=
  createOp (fun r m => let r := r.[ke <- r.(d)] in (r, m)) 1.
Definition LD_E_E : IOperation M :=
  createOp (fun r m => let r := r.[ke <- r.(e)] in (r, m)) 1.
Definition LD_E_H : IOperation M :=
  createOp (fun r m => let r := r.[ke <- r.(h)] in (r, m)) 1.
Definition LD_E_L : IOperation M :=
  createOp (fun r m => let r := r.[ke <- r.(l)] in (r, m)) 1.
Definition LD_E_BC : IOperation M :=
  createOp (fun r m => let r := r.[ke <- rb m (js_shl r.(b) (8 + r.(c)))] in (r, m)) 2.
Definition LD_E_DE : IOperation M :=
  createOp (fun r m => let r := r.[ke <- rb m (js_shl r.(d) (8 + r.(e)))] in (r, m)) 2.
Definition LD_E_HL : IOperation M :=
  createOp (fun r m => let r := r.[ke <- rb m (js_shl r.(h) (8 + r.(l)))] in (r, m)) 2.
Definition LD_E_nn : IOperation M :=
  createOp (fun r m =>
    let r := r.[ke <- rb m (rw m r.(pc))] in
    let r := r.[kpc <- r.(pc) + 2] in
    (r, m)) 4.
Definition LD_E_n : IOperation M :=
  createOp (fun r m => let '(pc0, r) := postinc r kpc in let r := r.[ke <- rb m pc0] in (r, m)) 2.
Definition LD_H_A : IOperation M :=
  createOp (fun r m => let r := r.[kh <- r.(a)] in (r, m)) 1.
Definition LD_H_B : IOperation M :=
  createOp (fun r m => let r := r.[kh <- r.(b)] in (r, m)) 1.
Definition LD_H_C : IOperation M :=
  createOp (fun r m => let r := r.[kh <- r.(c)] in (r, m)) 1.
Definition LD_H_D : IOperation M :=
  createOp (fun r m => let r := r.[kh <- r.(d)] in (r, m)) 1.
Definition LD_H_E : IOperation M :=
  createOp (fun r m => let r := r.[kh <- r.(e)] in (r, m)) 1.
Definition LD_H_H : IOperation M :=
  createOp (fun r m => let r := r.[kh <- r.(h)] in (r, m)) 1.
Definition LD_H_L : IOperation M :=
  createOp (fun r m => let r := r.[kh <- r.(l)] in (r, m)) 1.
Definition LD_H_BC : IOperation M :=
  createOp (fun r m => let r := r.[kh <- rb m (js_shl r.(b) (8 + r.(c)))] in (r, m)) 2.
Definition LD_H_DE : IOperation M :=
  createOp (fun r m => let r := r.[kh <- rb m (js_shl r.(d) (8 + r.(e)))] in (r, m)) 2.
Definition LD_H_HL : IOperation M :=
  createOp (fun r m => let r := r.[kh <- rb m (js_shl r.(h) (8 + r.(l)))] in (r, m)) 2.
Definition LD_H_nn : IOperation M :=
  createOp (fun r m =>
    let r := r.[kh <- rb m (rw m r.(pc))] in
    let r := r.[kpc <- r.(pc) + 2] in
    (r, m)) 4.
Definition LD_H_n : IOperation M :=
  createOp (fun r m => let '(pc0, r) := postinc r kpc in let r := r.[kh <- rb m pc0] in (r, m)) 2.
Definition LD_L_A : IOperation M :=
  createOp (fun r m => let r := r.[kl <- r.(a)] in (r, m)) 1.
Definition LD_L_B : IOperation M :=
  createOp (fun r m => let r := r.[kl <- r.(b)] in (r, m)) 1.
Definition LD_L_C : IOperation M :=
  createOp (fun r m => let r := r.[kl <- r.(c)] in (r, m)) 1.
Definition LD_L_D : IOperation M :=
  createOp (fun r m => let r := r.[kl <- r.(d)] in (r, m)) 1.
Definition LD_L_E : IOperation M :=
  createOp (fun r m => let r := r.[kl <- r.(e)] in (r, m)) 1.
Definition LD_L_H : IOperation M :=
  createOp (fun r m => let r := r.[kl <- r.(h)] in (r, m)) 1.
Definition LD_L_L : IOperation M :=
  createOp (fun r m => let r := r.[kl <- r.(l)] in (r, m)) 1.
Definition LD_L_BC : IOperation M :=
  createOp (fun r m => let r := r.[kl <- rb m (js_shl r.(b) (8 + r.(c)))] in (r, m)) 2.
Definition LD_L_DE : IOperation M :=
  createOp (fun r m => let r := r.[kl <- rb m (js_shl r.(d) (8 + r.(e)))] in (r, m)) 2.
Definition LD_L_HL : IOperation M :=
  createOp (fun r m => let r := r.[kl <- rb m (js_shl r.(h) (8 + r.(l)))] in (r, m)) 2.
Definition LD_L_nn : IOperation M :=
  createOp (fun r m =>
    let r := r.[kl <- rb m (rw m r.(pc))] in
    let r := r.[kpc <- r.(pc) + 2] in
    (r, m)) 4.
Definition LD_L_n : IOperation M :=
  createOp (fun r m => let '(pc0, r) := postinc r kpc in let r := r.[kl <- rb m pc0] in (r, m)) 2.
Definition LD_HL_B : IOperation M :=
  createOp (fun r m => let m := wb m (js_shl r.(h) (8 + r.(l))) r.(b) in (r, m)) 2.
Definition LD_HL_C : IOperation M :=
  createOp (fun r m => let m := wb m (js_shl r.(h) (8 + r.(l))) r.(c) in (r, m)) 2.
Definition LD_HL_D : IOperation M :=
  createOp (fun r m => let m := wb m (js_shl r.(h) (8 + r.(l))) r.(d) in (r, m)) 2.
Definition LD_HL_E : IOperation M :=
  createOp (fun r m => let m := wb m (js_shl r.(h) (8 + r.(l))) r.(e) in (r, m)) 2.
Definition LD_HL_H : IOperation M :=
  createOp (fun r m => let m := wb m (js_shl r.(h) (8 + r.(l))) r.(h) in (r, m)) 2.
Definition LD_HL_L : IOperation M :=
  createOp (fun r m => let m := wb m (js_shl r.(h) (8 + r.(l))) r.(l) in (r, m)) 2.
Definition LD_HL_n : IOperation M :=
  createOp (fun r m =>
    let '(pc0, r) := postinc r kpc in
    let m := wb m (js_shl r.(h) (8 + r.(l))) (rb m pc0) in
    (r, m)) 3.

Definition LD_BC_A : IOperation M :=
  createOp (fun r m => let m := wb m (js_shl r.(b) (8 + r.(c))) r.(a) in (r, m)) 2.
Definition LD_DE_A : IOperation M :=
  createOp (fun r m => let m := wb m (js_shl r.(d) (8 + r.(e))) r.(a) in (r, m)) 2.
Definition LD_HL_A : IOperation M :=
  createOp (fun r m => let m := wb m (js_shl r.(h) (8 + r.(l))) r.(a) in (r, m)) 2.
Definition LD_nn_A : IOperation M :=
  createOp (fun r m =>
    let m := wb m (rw m r.(pc)) r.(a) in
    let r := r.[kpc <- r.(pc) + 2] in
    (r, m)) 4.

Definition LD_A_FFC : IOperation M :=
  createOp (fun r m => let r := r.[ka <- rb m (0xFF00 + r.(c))] in (r, m)) 2.
Definition LD_FFC_A : IOperation M :=
  createOp (fun r m => let m := wb m (0xFF00 + r.(c)) r.(a) in (r, m)) 2.
Definition LD_A_HLD : IOperation M :=
  createOp (fun r m =>
    let '(_, r, m) := LD_A_HL r m in
    let r := r.[kl <- js_and (r.(l) - 1) 255] in
    let r := if r.(l) =? 255 then r.[kh <- js_and (r.(h) - 1) 255] else r in
    (r, m)) 2.
Definition LD_HLD_A : IOperation M :=
  createOp (fun r m =>
    let '(_, r, m) := LD_HL_A r m in
    let r := r.[kl <- js_and (r.(l) - 1) 255] in
    let r := if r.(l) =? 255 then r.[kh <- js_and (r.(h) - 1) 255] else r in
    (r, m)) 2.
Definition LD_A_HLI : IOperation M :=
  createOp (fun r m =>
    let '(_, r, m) := LD_A_HL r m in
    let r := r.[kl <- js_and (r.(l) + 1) 255] in
    let r := if r.(l) =? 0 then r.[kh <- js_and (r.(h) + 1) 255] else r in
    (r, m)) 2.
Definition LD_HLI_A : IOperation M :=
  createOp (fun r m =>
    let '(_, r, m) := LD_HL_A r m in
    let r := r.[kl <- js_and (r.(l) + 1) 255] in
    let r := if r.(l) =? 0 then r.[kh <- js_and (r.(h) + 1) 255] else r in
    (r, m)) 2.
Definition LD_FFn_A : IOperation M :=
  createOp (fun r m =>
    let '(pc0, r) := postinc r kpc in
    let m := wb m (0xFF00 + rb m pc0) r.(a) in
    (r, m)) 3.
Definition LD_A_FFn : IOperation M :=
  createOp (fun r m =>
    let '(pc0, r) := postinc r kpc in
    let r := r.[ka <- rb m (0xFF00 + rb m pc0)] in
    (r, m)) 3.

Definition LD_BC_nn : IOperation M :=
  createOp (fun r m =>
    let '(pc0, r) := postinc r kpc in
    let r := r.[kc <- rb m pc0] in
    let '(pc0, r) := postinc r kpc in
    let r := r.[kb <- rb m pc0] in
    (r, m)) 3.
Definition LD_DE_nn : IOperation M :=
  createOp (fun r m =>
    let '(pc0, r) := postinc r kpc in
    let r := r.[ke <- rb m pc0] in
    let '(pc0, r) := postinc r kpc in
    let r := r.[kd <- rb m pc0] in
    (r, m)) 3.
Definition LD_HL_nn : IOperation M :=
  createOp (fun r m =>
    let '(pc0, r) := postinc r kpc in
    let r := r.[kl <- rb m pc0] in
    let '(pc0, r) := postinc r kpc in
    let r := r.[kh <- rb m pc0] in
    (r, m)) 3.
Definition LD_SP_nn : IOperation M :=
  createOp (fun r m =>
    let r := r.[ksp <- rw m r.(pc)] in
    let r := r.[kpc <- r.(pc) + 2] in
    (r, m)) 3.
Definition LD_SP_HL : IOperation M :=
  createOp (fun r m =>
    let r := r.[ksp <- js_or (js_shl (rb m r.(h)) 8) (rb m r.(l))] in
    (r, m)) 2.
Definition LD_HL_SPn : IOperation M :=
  createOp (fun r m =>
    let '(pc0, r) := postinc r kpc in
    let v := toSigned (rb m pc0) + r.(sp) in
    let r := r.[kh <- js_and (js_sar v 8) 255] in
    let r := r.[kl <- js_and v 255] in
    (r, m)) 3.
Definition LD_nn_SP : IOperation M :=
  createOp (fun r m =>
    let m := ww m (rw m r.(pc)) r.(sp) in
    let r := r.[kpc <- r.(pc) + 2] in
    (r, m)) 5.

Definition PUSH_AF : IOperation M :=
  createOp (fun r m =>
    let '(sp1, r) := predec r ksp in
    let m := wb m sp1 r.(a) in
    let '(sp1, r) := predec r ksp in
    let m := wb m sp1 r.(f) in
    (r, m)) 4.
Definition PUSH_BC : IOperation M :=
  createOp (fun r m =>
    let '(sp1, r) := predec r ksp in
    let m := wb m sp1 r.(b) in
    let '(sp1, r) := predec r ksp in
    let m := wb m sp1 r.(c) in
    (r, m)) 4.
Definition PUSH_DE : IOperation M :=
  createOp (fun r m =>
    let '(sp1, r) := predec r ksp in
    let m := wb m sp1 r.(d) in
    let '(sp1, r) := predec r ksp in
    let m := wb m sp1 r.(e) in
    (r, m)) 4.
Definition PUSH_HL : IOperation M :=
  createOp (fun r m =>
    let '(sp1, r) := predec r ksp in
    let m := wb m sp1 r.(h) in
    let '(sp1, r) := predec r ksp in
    let m := wb m sp1 r.(l) in
    (r, m)) 4.

Definition POP_AF : IOperation M :=
  createOp (fun r m =>
    let '(sp0, r) := postinc r ksp in
    let r := r.[kf <- rb m sp0] in
    let '(sp0, r) := postinc r ksp in
    let r := r.[ka <- rb m sp0] in
    (r, m)) 3.
Definition POP_BC : IOperation M :=
  createOp (fun r m =>
    let '(sp0, r) := postinc r ksp in
    let r := r.[kc <- rb m sp0] in
    let '(sp0, r) := postinc r ksp in
    let r := r.[kb <- rb m sp0] in
    (r, m)) 3.
Definition POP_DE : IOperation M :=
  createOp (fun r m =>
    let '(sp0, r) := postinc r ksp in
    let r := r.[ke <- rb m sp0] in
    let '(sp0, r) := postinc r ksp in
    let r := r.[kd <- rb m sp0] in
    (r, m)) 3.
Definition POP_HL : IOperation M :=
  createOp (fun r m =>
    let '(sp0, r) := postinc r ksp in
    let r := r.[kl <- rb m sp0] in
    let '(sp0, r) := postinc r ksp in
    let r := r.[kh <- rb m sp0] in
    (r, m)) 3.

Definition ADD_A : IOperation M :=
  createOp (fun r m => let r := add r r.(a) in (r, m)) 1.
Definition ADD_B : IOperation M :=
  createOp (fun r m => let r := add r r.(b) in (r, m)) 1.
Definition ADD_C : IOperation M :=
  createOp (fun r m => let r := add r r.(c) in (r, m)) 1.
Definition ADD_D : IOperation M :=
  createOp (fun r m => let r := add r r.(d) in (r, m)) 1.
Definition ADD_E : IOperation M :=
  createOp (fun r m => let r := add r r.(e) in (r, m)) 1.
Definition ADD_H : IOperation M :=
  createOp (fun r m => let r := add r r.(h) in (r, m)) 1.
Definition ADD_L : IOperation M :=
  createOp (fun r m => let r := add r r.(l) in (r, m)) 1.
Definition ADD_HLM : IOperation M :=
  createOp (fun r m => let r := add r (rb m (js_shl r.(h) (8 + r.(l)))) in (r, m)) 2.
Definition ADD_n : IOperation M :=
  createOp (fun r m => let '(pc0, r) := postinc r kpc in let r := add r (rb m pc0) in (r, m)) 2.

Definition ADC_A : IOperation M :=
  createOp (fun r m =>
    let r := add r (r.(a) + (if truthy (js_and r.(f) Flags.C) then 1 else 0)) in
    (r, m)) 1.
Definition ADC_B : IOperation M :=
  createOp (fun r m =>
    let r := add r (r.(b) + (if truthy (js_and r.(f) Flags.C) then 1 else 0)) in
    (r, m)) 1.
Definition ADC_C : IOperation M :=
  createOp (fun r m =>
    let r := add r (r.(c) + (if truthy (js_and r.(f) Flags.C) then 1 else 0)) in
    (r, m)) 1.
Definition ADC_D : IOperation M :=
  createOp (fun r m =>
    let r := add r (r.(d) + (if truthy (js_and r.(f) Flags.C) then 1 else 0)) in
    (r, m)) 1.
Definition ADC_E : IOperation M :=
  createOp (fun r m =>
    let r := add r (r.(e) + (if truthy (js_and r.(f) Flags.C) then 1 else 0)) in
    (r, m)) 1.
Definition ADC_H : IOperation M :=
  createOp (fun r m =>
    let r := add r (r.(h) + (if truthy (js_and r.(f) Flags.C) then 1 else 0)) in
    (r, m)) 1.
Definition ADC_L : IOperation M :=
  createOp (fun r m =>
    let r := add r (r.(l) + (if truthy (js_and r.(f) Flags.C) then 1 else 0)) in
    (r, m)) 1.
Definition ADC_HLM : IOperation M :=
  createOp (fun r m =>
    let r := add r ((rb m (js_shl r.(h) (8 + r.(l)))) + (if truthy (js_and r.(f) Flags.C) then 1 else 0)) in
    (r, m)) 2.
Definition ADC_n : IOperation M :=
  createOp (fun r m =>
    let '(pc0, r) := postinc r kpc in
    let r := add r (rb m pc0 + (if truthy (js_and r.(f) Flags.C) then 1 else 0)) in
    (r, m)) 2.

Definition SUB_A : IOperation M :=
  createOp (fun r m => let r := sub r r.(a) in (r, m)) 1.
Definition SUB_B : IOperation M :=
  createOp (fun r m => let r := sub r r.(b) in (r, m)) 1.
Definition SUB_C : IOperation M :=
  createOp (fun r m => let r := sub r r.(c) in (r, m)) 1.
Definition SUB_D : IOperation M :=
  createOp (fun r m => let r := sub r r.(d) in (r, m)) 1.
Definition SUB_E : IOperation M :=
  createOp (fun r m => let r := sub r r.(e) in (r, m)) 1.
Definition SUB_H : IOperation M :=
  createOp (fun r m => let r := sub r r.(h) in (r, m)) 1.
Definition SUB_L : IOperation M :=
  createOp (fun r m => let r := sub r r.(l) in (r, m)) 1.
Definition SUB_HLM : IOperation M :=
  createOp (fun r m => let r := sub r (rb m (js_shl r.(h) (8 + r.(l)))) in (r, m)) 2.
Definition SUB_n : IOperation M :=
  createOp (fun r m => let '(pc0, r) := postinc r kpc in let r := sub r (rb m pc0) in (r, m)) 2.

Definition SBC_A : IOperation M :=
  createOp (fun r m =>
    let r := sub r (r.(a) + (if truthy (js_and r.(f) Flags.C) then 1 else 0)) in
    (r, m)) 1.
Definition SBC_B : IOperation M :=
  createOp (fun r m =>
    let r := sub r (r.(b) + (if truthy (js_and r.(f) Flags.C) then 1 else 0)) in
    (r, m)) 1.
Definition SBC_C : IOperation M :=
  createOp (fun r m =>
    let r := sub r (r.(c) + (if truthy (js_and r.(f) Flags.C) then 1 else 0)) in
    (r, m)) 1.
Definition SBC_D : IOperation M :=
  createOp (fun r m =>
    let r := sub r (r.(d) + (if truthy (js_and r.(f) Flags.C) then 1 else 0)) in
    (r, m)) 1.
Definition SBC_E : IOperation M :=
  createOp (fun r m =>
    let r := sub r (r.(e) + (if truthy (js_and r.(f) Flags.C) then 1 else 0)) in
    (r, m)) 1.
Definition SBC_H : IOperation M :=
  createOp (fun r m =>
    let r := sub r (r.(h) + (if truthy (js_and r.(f) Flags.C) then 1 else 0)) in
    (r, m)) 1.
Definition SBC_L : IOperation M :=
  createOp (fun r m =>
    let r := sub r (r.(l) + (if truthy (js_and r.(f) Flags.C) then 1 else 0)) in
    (r, m)) 1.
Definition SBC_HLM : IOperation M :=
  createOp (fun r m =>
    let r := sub r ((rb m (js_shl r.(h) (8 + r.(l)))) + (if truthy (js_and r.(f) Flags.C) then 1 else 0)) in
    (r, m)) 2.

Definition AND_A : IOperation M :=
  createOp (fun r m => let r := and_ r r.(a) in (r, m)) 1.
Definition AND_B : IOperation M :=
  createOp (fun r m => let r := and_ r r.(b) in (r, m)) 1.
Definition AND_C : IOperation M :=
  createOp (fun r m => let r := and_ r r.(c) in (r, m)) 1.
Definition AND_D : IOperation M :=
  createOp (fun r m => let r := and_ r r.(d) in (r, m)) 1.
Definition AND_E : IOperation M :=
  createOp (fun r m => let r := and_ r r.(e) in (r, m)) 1.
Definition AND_H : IOperation M :=
  createOp (fun r m => let r := and_ r r.(h) in (r, m)) 1.
Definition AND_L : IOperation M :=
  createOp (fun r m => let r := and_ r r.(l) in (r, m)) 1.
Definition AND_HLM : IOperation M :=
  createOp (fun r m => let r := and_ r (rb m (js_shl r.(h) (8 + r.(l)))) in (r, m)) 2.
Definition AND_n : IOperation M :=
  createOp (fun r m => let '(pc0, r) := postinc r kpc in let r := and_ r (rb m pc0) in (r, m)) 2.

Definition OR_A : IOperation M :=
  createOp (fun r m => let r := or_ r r.(a) in (r, m)) 1.
Definition OR_B : IOperation M :=
  createOp (fun r m => let r := or_ r r.(b) in (r, m)) 1.
Definition OR_C : IOperation M :=
  createOp (fun r m => let r := or_ r r.(c) in (r, m)) 1.
Definition OR_D : IOperation M :=
  createOp (fun r m => let r := or_ r r.(d) in (r, m)) 1.
Definition OR_E : IOperation M :=
  createOp (fun r m => let r := or_ r r.(e) in (r, m)) 1.
Definition OR_H : IOperation M :=
  createOp (fun r m => let r := or_ r r.(h) in (r, m)) 1.
Definition OR_L : IOperation M :=
  createOp (fun r m => let r := or_ r r.(l) in (r, m)) 1.
Definition OR_HLM : IOperation M :=
  createOp (fun r m => let r := or_ r (rb m (js_shl r.(h) (8 + r.(l)))) in (r, m)) 2.
Definition OR_n : IOperation M :=
  createOp (fun r m => let '(pc0, r) := postinc r kpc in let r := or_ r (rb m pc0) in (r, m)) 2.

Definition XOR_A : IOperation M :=
  createOp (fun r m => let r := xor r r.(a) in (r, m)) 1.
Definition XOR_B : IOperation M :=
  createOp (fun r m => let r := xor r r.(b) in (r, m)) 1.
Definition XOR_C : IOperation M :=
  createOp (fun r m => let r := xor r r.(c) in (r, m)) 1.
Definition XOR_D : IOperation M :=
  createOp (fun r m => let r := xor r r.(d) in (r, m)) 1.
Definition XOR_E : IOperation M :=
  createOp (fun r m => let r := xor r r.(e) in (r, m)) 1.
Definition XOR_H : IOperation M :=
  createOp (fun r m => let r := xor r r.(h) in (r, m)) 1.
Definition XOR_L : IOperation M :=
  createOp (fun r m => let r := xor r r.(l) in (r, m)) 1.
Definition XOR_HLM : IOperation M :=
  createOp (fun r m => let r := xor r (rb m (js_shl r.(h) (8 + r.(l)))) in (r, m)) 2.
Definition XOR_n : IOperation M :=
  createOp (fun r m => let '(pc0, r) := postinc r kpc in let r := xor r (rb m pc0) in (r, m)) 2.

Definition CP_A : IOperation M :=
  createOp (fun r m => let r := cp r r.(a) in (r, m)) 1.
Definition CP_B : IOperation M :=
  createOp (fun r m => let r := cp r r.(b) in (r, m)) 1.
Definition CP_C : IOperation M :=
  createOp (fun r m => let r := cp r r.(c) in (r, m)) 1.
Definition CP_D : IOperation M :=
  createOp (fun r m => let r := cp r r.(d) in (r, m)) 1.
Definition CP_E : IOperation M :=
  createOp (fun r m => let r := cp r r.(e) in (r, m)) 1.
Definition CP_H : IOperation M :=
  createOp (fun r m => let r := cp r r.(h) in (r, m)) 1.
Definition CP_L : IOperation M :=
  createOp (fun r m => let r := cp r r.(l) in (r, m)) 1.
Definition CP_HLM : IOperation M :=
  createOp (fun r m => let r := cp r (rb m (js_shl r.(h) (8 + r.(l)))) in (r, m)) 2.
Definition CP_n : IOperation M :=
  createOp (fun r m => let '(pc0, r) := postinc r kpc in let r := cp r (rb m pc0) in (r, m)) 2.

Definition INC_A : IOperation M :=
  createOp (fun r m => let r := inc r ka 255 in (r, m)) 1.
Definition INC_B : IOperation M :=
  createOp (fun r m => let r := inc r kb 255 in (r, m)) 1.
Definition INC_C : IOperation M :=
  createOp (fun r m => let r := inc r kc 255 in (r, m)) 1.
Definition INC_D : IOperation M :=
  createOp (fun r m => let r := inc r kd 255 in (r, m)) 1.
Definition INC_E : IOperation M :=
  createOp (fun r m => let r := inc r ke 255 in (r, m)) 1.
Definition INC_H : IOperation M :=
  createOp (fun r m => let r := inc r kh 255 in (r, m)) 1.
Definition INC_L : IOperation M :=
  createOp (fun r m => let r := inc r kl 255 in (r, m)) 1.
Definition INC_HLM : IOperation M :=
  createOp (fun r m =>
    let i := js_shl r.(h) (8 + r.(l)) in
    let v := js_and (rb m i + 1) 255 in
    let m := wb m i v in
    let r := resetFlags r v in
    (r, m)) 3.

Definition DEC_A : IOperation M :=
  createOp (fun r m => let r := dec r ka 255 in (r, m)) 1.
Definition DEC_B : IOperation M :=
  createOp (fun r m => let r := dec r kb 255 in (r, m)) 1.
Definition DEC_C : IOperation M :=
  createOp (fun r m => let r := dec r kc 255 in (r, m)) 1.
Definition DEC_D : IOperation M :=
  createOp (fun r m => let r := dec r kd 255 in (r, m)) 1.
Definition DEC_E : IOperation M :=
  createOp (fun r m => let r := dec r ke 255 in (r, m)) 1.
Definition DEC_H : IOperation M :=
  createOp (fun r m => let r := dec r kh 255 in (r, m)) 1.
Definition DEC_L : IOperation M :=
  createOp (fun r m => let r := dec r kl 255 in (r, m)) 1.
Definition DEC_HLM : IOperation M :=
  createOp (fun r m =>
    let i := js_shl r.(h) (8 + r.(l)) in
    let v := js_and (rb m i - 1) 255 in
    let m := wb m i v in
    let r := resetFlags r v in
    (r, m)) 3.

Definition ADD_HL_BC : IOperation M :=
  createOp (fun r m => let r := addHl r (js_shl r.(b) (8 + r.(c))) in (r, m)) 2.
Definition ADD_HL_DE : IOperation M :=
  createOp (fun r m => let r := addHl r (js_shl r.(d) (8 + r.(e))) in (r, m)) 2.
Definition ADD_HL_HL : IOperation M :=
  createOp (fun r m => let r := addHl r (js_shl r.(h) (8 + r.(l))) in (r, m)) 2.
Definition ADD_HL_SP : IOperation M :=
  createOp (fun r m => let r := addHl r r.(sp) in (r, m)) 2.
Definition ADD_SP_n : IOperation M :=
  createOp (fun r m =>
    let '(pc0, r) := postinc r kpc in
    let r := r.[ksp <- r.(sp) + toSigned (rb m pc0)] in
    let r := r.[kf <- 0] in
    (r, m)) 4.

Definition INC_BC : IOperation M :=
  createOp (fun r m => let r := inc2 r kb kc in (r, m)) 2.
Definition INC_DE : IOperation M :=
  createOp (fun r m => let r := inc2 r kd ke in (r, m)) 2.
Definition INC_HL : IOperation M :=
  createOp (fun r m => let r := inc2 r kh kl in (r, m)) 2.
Definition INC_SP : IOperation M :=
  createOp (fun r m => let r := inc r ksp 65535 in (r, m)) 2.

Definition DEC_BC : IOperation M :=
  createOp (fun r m => let r := dec2 r kb kc in (r, m)) 2.
Definition DEC_DE : IOperation M :=
  createOp (fun r m => let r := dec2 r kd ke in (r, m)) 2.
Definition DEC_HL : IOperation M :=
  createOp (fun r m => let r := dec2 r kh kl in (r, m)) 2.
Definition DEC_SP : IOperation M :=
  createOp (fun r m => let r := dec r ksp 65535 in (r, m)) 2.

Definition SWAP_A : IOperation M :=
  createOp (fun r m => let r := swap r ka in (r, m)) 2.
Definition SWAP_B : IOperation M :=
  createOp (fun r m => let r := swap r kb in (r, m)) 2.
Definition SWAP_C : IOperation M :=
  createOp (fun r m => let r := swap r kc in (r, m)) 2.
Definition SWAP_D : IOperation M :=
  createOp (fun r m => let r := swap r kd in (r, m)) 2.
Definition SWAP_E : IOperation M :=
  createOp (fun r m => let r := swap r ke in (r, m)) 2.
Definition SWAP_H : IOperation M :=
  createOp (fun r m => let r := swap r kh in (r, m)) 2.
Definition SWAP_L : IOperation M :=
  createOp (fun r m => let r := swap r kl in (r, m)) 2.
Definition SWAP_HLM : IOperation M :=
  createOp (fun r m =>
    let i := js_shl r.(h) (8 + r.(l)) in
    let hlm := rb m i in
    let v := js_and (js_or (js_sar hlm 4) (js_shl hlm 4)) 255 in
    let m := wb m i v in
    let r := resetFlags r v in
    (r, m)) 4.

Definition NOP : IOperation M :=
  createOp (fun r m => (r, m)) 1.

End Operations.
End o.

Definition oMap {M : Type} `{!IMemory M} : list (option (IOperation M)) := [
  (* 00 *)
  Some o.NOP; Some o.LD_BC_nn; Some o.LD_BC_A; Some o.INC_BC; Some o.INC_B; Some o.DEC_B;
  Some o.LD_B_n; None; Some o.LD_nn_SP; Some o.ADD_HL_BC; Some o.LD_A_BC; Some o.DEC_BC;
  Some o.INC_C; Some o.DEC_C; Some o.LD_C_n; None;
  (* 10 *)
  None; Some o.LD_DE_nn; Some o.LD_DE_A; Some o.INC_DE; Some o.INC_D; Some o.DEC_D;
  Some o.LD_D_n; None; None; Some o.ADD_HL_DE; Some o.LD_A_DE; Some o.DEC_DE; Some o.INC_E;
  Some o.DEC_E; Some o.LD_E_n; None;
  (* 20 *)
  None; Some o.LD_HL_nn; Some o.LD_HLI_A; Some o.INC_HLM; Some o.INC_H; Some o.DEC_H;
  Some o.LD_H_n; None; None; Some o.ADD_HL_HL; Some o.LD_A_HLI; Some o.DEC_HL; Some o.INC_L;
  Some o.DEC_L; Some o.LD_L_n; None;
  (* 30 *)
  None; Some o.LD_SP_nn; Some o.LD_HLD_A; Some o.INC_SP; Some o.INC_HL; Some o.DEC_HLM;
  Some o.LD_HL_n; None; None; Some o.ADD_HL_SP; Some o.LD_A_HLD; Some o.DEC_SP; Some o.INC_A;
  Some o.DEC_A; Some o.LD_A_n; None;
  (* 40 *)
  Some o.LD_B_B; Some o.LD_B_C; Some o.LD_B_D; Some o.LD_B_E; Some o.LD_B_H; Some o.LD_B_L;
  Some o.LD_B_HL; Some o.LD_B_A; Some o.LD_C_B; Some o.LD_C_C; Some o.LD_C_D; Some o.LD_C_E;
  Some o.LD_C_H; Some o.LD_C_L; Some o.LD_C_HL; Some o.LD_C_A;
  (* 50 *)
  Some o.LD_D_B; Some o.LD_D_C; Some o.LD_D_D; Some o.LD_D_E; Some o.LD_D_H; Some o.LD_D_L;
  Some o.LD_D_HL; Some o.LD_D_A; Some o.LD_E_B; Some o.LD_E_C; Some o.LD_E_D; Some o.LD_E_E;
  Some o.LD_E_H; Some o.LD_E_L; Some o.LD_E_HL; Some o.LD_E_A;
  (* 60 *)
  Some o.LD_H_B; Some o.LD_H_C; Some o.LD_H_D; Some o.LD_H_E; Some o.LD_H_H; Some o.LD_H_L;
  Some o.LD_H_HL; Some o.LD_H_A; Some o.LD_L_B; Some o.LD_L_C; Some o.LD_L_D; Some o.LD_L_E;
  Some o.LD_L_H; Some o.LD_L_L; Some o.LD_L_HL; Some o.LD_L_A;
  (* 70 *)
  Some o.LD_HL_B; Some o.LD_HL_C; Some o.LD_HL_D; Some o.LD_HL_E; Some o.LD_HL_H;
  Some o.LD_HL_L; Some o.LD_HL_A; None; Some o.LD_A_B; Some o.LD_A_C; Some o.LD_A_D;
  Some o.LD_A_E; Some o.LD_A_H; Some o.LD_A_L; Some o.LD_A_HL; Some o.LD_A_A;
  (* 80 *)
  Some o.ADD_B; Some o.ADD_C; Some o.ADD_D; Some o.ADD_E; Some o.ADD_H; Some o.ADD_L;
  Some o.ADD_HLM; Some o.ADD_A; Some o.ADC_B; Some o.ADC_C; Some o.ADC_D; Some o.ADC_E;
  Some o.ADC_H; Some o.ADC_L; Some o.ADC_HLM; Some o.ADC_A;
  (* 90 *)
  Some o.SUB_B; Some o.SUB_C; Some o.SUB_D; Some o.SUB_E; Some o.SUB_H; Some o.SUB_L;
  Some o.SUB_HLM; Some o.SUB_A; Some o.SBC_B; Some o.SBC_C; Some o.SBC_D; Some o.SBC_E;
  Some o.SBC_H; Some o.SBC_L; Some o.SBC_HLM; Some o.SBC_A;
  (* A0 *)
  Some o.AND_B; Some o.AND_C; Some o.AND_D; Some o.AND_E; Some o.AND_H; Some o.AND_L;
  Some o.AND_HLM; Some o.AND_A; Some o.XOR_B; Some o.XOR_C; Some o.XOR_D; Some o.XOR_E;
  Some o.XOR_H; Some o.XOR_L; Some o.XOR_HLM; Some o.XOR_A;
  (* B0 *)
  Some o.OR_B; Some o.OR_C; Some o.OR_D; Some o.OR_E; Some o.OR_H; Some o.OR_L; Some o.OR_HLM;
  Some o.OR_A; Some o.CP_B; Some o.CP_C; Some o.CP_D; Some o.CP_E; Some o.CP_H; Some o.CP_L;
  Some o.CP_HLM; Some o.CP_A;
  (* C0 *)
  None; Some o.POP_BC; None; None; None; Some o.PUSH_BC; Some o.ADD_n; None; None; None; None;
  None; None; None; Some o.ADC_n; None;
  (* D0 *)
  None; Some o.POP_DE; None; None; None; Some o.PUSH_DE; Some o.SUB_n; None; None; None; None;
  None; None; None; None; None;
  (* E0 *)
  Some o.LD_FFn_A; Some o.POP_HL; Some o.LD_FFC_A; None; None; Some o.PUSH_HL; Some o.AND_n;
  None; Some o.ADD_SP_n; None; Some o.LD_nn_A; None; None; None; Some o.XOR_n; None;
  (* F0 *)
  Some o.LD_A_FFn; Some o.POP_AF; Some o.LD_A_FFC; None; None; Some o.PUSH_AF; Some o.OR_n;
  None; Some o.LD_HL_SPn; Some o.LD_SP_HL; Some o.LD_A_nn; None; None; None; None; None
].

Definition oCbMap {M : Type} `{!IMemory M} : list (option (IOperation M)) := [
  (* CB 00 *)
  None; None; None; None; None; None; None; None; None; None; None; None; None; None; None;
  None;
  (* CB 10 *)
  None; None; None; None; None; None; None; None; None; None; None; None; None; None; None;
  None;
  (* CB 20 *)
  None; None; None; None; None; None; None; None; None; None; None; None; None; None; None;
  None;
  (* CB 30 *)
  Some o.SWAP_B; Some o.SWAP_C; Some o.SWAP_D; Some o.SWAP_E; Some o.SWAP_H; Some o.SWAP_L;
  Some o.SWAP_HLM; Some o.SWAP_A; None; None; None; None; None; None; None; None;
  (* CB 40 *)
  None; None; None; None; None; None; None; None; None; None; None; None; None; None; None;
  None;
  (* CB 50 *)
  None; None; None; None; None; None; None; None; None; None; None; None; None; None; None;
  None;
  (* CB 60 *)
  None; None; None; None; None; None; None; None; None; None; None; None; None; None; None;
  None;
  (* CB 70 *)
  None; None; None; None; None; None; None; None; None; None; None; None; None; None; None;
  None
].
(** ** The CPU *)

Record Cpu := {
  _c : Z;            (* the clock, in 1MHz cycles *)
  _r : IRegisterSet
}.

Definition Cpu_new : Cpu :=
  {| _c := 0;
     _r := {| a := 0; b := 0; c := 0; d := 0; e := 0; h := 0; l := 0; f := 0; pc := 0; sp := 0 |} |}.

Definition _reset (this : Cpu) : Cpu :=
  let r := this.(_r) in
  let r := r.[ka <- 0] in
  let r := r.[ka <- 0] in
  let r := r.[kb <- 0] in
  let r := r.[kc <- 0] in
  let r := r.[kd <- 0] in
  let r := r.[ke <- 0] in
  let r := r.[kh <- 0] in
  let r := r.[kl <- 0] in
  let r := r.[kf <- 0] in
  let r := r.[kpc <- 0] in
  let r := r.[ksp <- 0] in
  {| _c := 0; _r := r |}.

(** [arr[i]] on a table of optional entries: [undefined] outside it. *)
Definition index {A : Type} (arr : list (option A)) (i : Z) : option A :=
  if 0 <=? i then mjoin (arr !! Z.to_nat i) else None.

(** A thrown [Error] keeps the state as mutated so far, so a call returns
    how it completed together with the objects. *)
Record Error := { message : string }.

Inductive Completion := Normal | Throw (err : Error).

Section Cycle.
Context {M : Type} `{!IMemory M}.

Definition cycle (this : Cpu) (m : M) : Completion * Cpu * M :=
  let '(pc0, r) := postinc this.(_r) kpc in
  let opcode := rb m pc0 in
  match index oMap opcode with
  | Some op =>
      let '(cycles, r, m) := op r m in
      (Normal, {| _c := this.(_c) + cycles; _r := r |}, m)
  | None =>
      (Throw {| message := String.append "opcode 0x"%string
                             (String.append (toString16 opcode) " not implemented"%string) |},
       {| _c := this.(_c); _r := r |}, m)
  end.

End Cycle.

(** ** The two memory management units *)

(** The first [Mmu] of [src/mmu.ts]: reads return 0, writes do nothing. *)
Module Mmu0.
Definition Mmu : Type := unit.
Definition rb (this : Mmu) (address : Z) : Z := 0.
Definition rw (this : Mmu) (address : Z) : Z := 0.
Definition wb (this : Mmu) (address value : Z) : Mmu := this.
Definition ww (this : Mmu) (address value : Z) : Mmu := this.
End Mmu0.

#[export] Instance Mmu0_IMemory : IMemory Mmu0.Mmu :=
  {| rb := Mmu0.rb; rw := Mmu0.rw; wb := Mmu0.wb; ww := Mmu0.ww |}.

(** The second [Mmu]: a [Uint8Array] of 65536 bytes, all zero at first.
    The array is the function from an index to its element.  A store
    outside the array is ignored and a stored value is reduced to a byte,
    as typed arrays do.  A load outside the array is [undefined] in the
    source; it is given as 0 here and no statement below performs one on
    this memory. *)
Module Mmu.
Record Mmu := { _memory : Z -> Z }.

Definition new : Mmu := {| _memory := fun _ => 0 |}.

Definition in_array (i : Z) : bool := (0 <=? i) && (i <? 65536).

Definition load_element (arr : Z -> Z) (i : Z) : Z :=
    if in_array i then arr i else 0.
Definition store_element (arr : Z -> Z) (i v : Z) : Z -> Z :=
    if in_array i then fun j => if j =? i then v mod 256 else arr j else arr.

Definition rb (this : Mmu) (address : Z) : Z :=
    load_element this.(_memory) address.
Definition rw (this : Mmu) (address : Z) : Z :=
    load_element this.(_memory) address + js_shl (load_element this.(_memory) address) 8.
Definition wb (this : Mmu) (address value : Z) : Mmu :=
    {| _memory := store_element this.(_memory) address value |}.
Definition ww (this : Mmu) (address value : Z) : Mmu :=
    let this := wb this address (js_and value 255) in
    wb this (address + 1) (js_sar value 8).
End Mmu.

#[export] Instance Mmu_IMemory : IMemory Mmu.Mmu :=
  {| rb := Mmu.rb; rw := Mmu.rw; wb := Mmu.wb; ww := Mmu.ww |}.

(** ** The GPU timing *)

Inductive Modes := HBlank (* 0 *) | VBlank (* 1 *) | OamRead (* 2 *) | VramRead (* 3 *).

(** The [_background] buffer is left out: [step] neither reads nor
    writes it. *)
Record Gpu := {
  _mode : Modes;
  _modeclock : Z;
  _line : Z
}.

(** [_mode = 0] is [Modes.HBlank]. *)
Definition Gpu_new : Gpu := {| _mode := HBlank; _modeclock := 0; _line := 0 |}.

(** The lines written to the console are returned next to the state. *)
Definition _renderScan (this : Gpu) : Gpu * list string :=
  (this, ["Gpu._renderScan"%string]).

Definition step (this : Gpu) (cycles : Z) : Gpu * list string :=
  let this := {| _mode := this.(_mode);
                 _modeclock := this.(_modeclock) + cycles;
                 _line := this.(_line) |} in
  match this.(_mode) with
  | OamRead =>
      if 80 <=? this.(_modeclock) then
        ({| _mode := VramRead; _modeclock := 0; _line := this.(_line) |}, [])
      else (this, [])
  | VramRead =>
      if 172 <=? this.(_modeclock) then
        _renderScan {| _mode := HBlank; _modeclock := 0; _line := this.(_line) |}
      else (this, [])
  | HBlank =>
      if 204 <=? this.(_modeclock) then
        let line := this.(_line) + 1 in
        if line =? 143 then
          ({| _mode := VBlank; _modeclock := 0; _line := line |}, [])
        else
          ({| _mode := OamRead; _modeclock := 0; _line := line |}, [])
      else (this, [])
  | VBlank =>
      if 456 <=? this.(_modeclock) then
        let line := this.(_line) + 1 in
        if 153 <? line then
          ({| _mode := OamRead; _modeclock := 0; _line := 0 |}, [])
        else
          ({| _mode := VBlank; _modeclock := 0; _line := line |}, [])
      else (this, [])
  end.

(** ** Vocabulary of the statements *)

Definition byte (x : Z) : Prop := 0 <= x <= 255.

(** The eight 8-bit fields hold bytes. *)
Definition bytes8 (r : IRegisterSet) : Prop :=
  byte r.(a) /\ byte r.(b) /\ byte r.(c) /\ byte r.(d) /\ byte r.(e) /\ byte r.(h) /\
  byte r.(l) /\ byte r.(f).

(** The registers that INC and DEC are instantiated with. *)
Definition registers8 : list keyof_IRegisterSet := [ka; kb; kc; kd; ke; kh; kl].

(** A property of every populated slot of a table, slot [k] being the
    first one. *)
Fixpoint table_from {A : Type} (Q : Z -> A -> Prop) (k : Z) (arr : list (option A)) : Prop :=
  match arr with
  | [] => True
  | entry :: arr' =>
      match entry with Some x => Q k x | None => True end /\ table_from Q (k + 1) arr'
  end.

(** The register pairs of PUSH and POP with their halves. *)
Inductive Pair := AF | BC | DE | HL.

Definition high (p : Pair) : keyof_IRegisterSet :=
  match p with AF => ka | BC => kb | DE => kd | HL => kh end.
Definition low (p : Pair) : keyof_IRegisterSet :=
  match p with AF => kf | BC => kc | DE => ke | HL => kl end.

(** A byte written to an address of the 16-bit space is read back from
    it, also after writes to other addresses. *)
Class ByteStore (M : Type) `{!IMemory M} : Prop := {
  rb_wb_same : forall (m : M) addr v,
    0 <= addr <= 65535 -> byte v -> rb (wb m addr v) addr = v;
  rb_wb_other : forall (m : M) addr addr' v,
    addr <> addr' -> rb (wb m addr v) addr' = rb m addr'
}.

Section Tables.
Context {M : Type} `{!IMemory M}.

Definition PUSH (p : Pair) : IOperation M :=
  match p with AF => o.PUSH_AF | BC => o.PUSH_BC | DE => o.PUSH_DE | HL => o.PUSH_HL end.
Definition POP (p : Pair) : IOperation M :=
  match p with AF => o.POP_AF | BC => o.POP_BC | DE => o.POP_DE | HL => o.POP_HL end.

(** What one operation at slot [i] of [oMap] does to the ranges of the
    registers; slot 0xF1 is POP AF. *)
Definition op_ranges (i : Z) (op : IOperation M) : Prop :=
  forall r m, bytes8 r -> (forall addr, byte (rb m addr)) ->
    let '(_, r', _) := op r m in
    bytes8 r' /\
    (i <> 0xF1 -> Z.land r.(f) 0xF = 0 -> Z.land r'.(f) 0xF = 0) /\
    (r.(pc) <= r'.(pc) <= r.(pc) + 2) /\
    ((forall addr, 0 <= rw m addr <= 65535) -> 128 <= r.(sp) <= 65408 ->
       0 <= r'.(sp) <= 65535).

(** The entries of [o] whose name starts with LD_, in the order of the source. *)
Definition LD_entries : list (string * IOperation M) := [
  ("LD_A_A"%string, o.LD_A_A); ("LD_A_B"%string, o.LD_A_B); ("LD_A_C"%string, o.LD_A_C);
  ("LD_A_D"%string, o.LD_A_D); ("LD_A_E"%string, o.LD_A_E); ("LD_A_H"%string, o.LD_A_H);
  ("LD_A_L"%string, o.LD_A_L); ("LD_A_BC"%string, o.LD_A_BC); ("LD_A_DE"%string, o.LD_A_DE);
  ("LD_A_HL"%string, o.LD_A_HL); ("LD_A_nn"%string, o.LD_A_nn); ("LD_A_n"%string, o.LD_A_n);
  ("LD_B_A"%string, o.LD_B_A); ("LD_B_B"%string, o.LD_B_B); ("LD_B_C"%string, o.LD_B_C);
  ("LD_B_D"%string, o.LD_B_D); ("LD_B_E"%string, o.LD_B_E); ("LD_B_H"%string, o.LD_B_H);
  ("LD_B_L"%string, o.LD_B_L); ("LD_B_BC"%string, o.LD_B_BC); ("LD_B_DE"%string, o.LD_B_DE);
  ("LD_B_HL"%string, o.LD_B_HL); ("LD_B_nn"%string, o.LD_B_nn); ("LD_B_n"%string, o.LD_B_n);
  ("LD_C_A"%string, o.LD_C_A); ("LD_C_B"%string, o.LD_C_B); ("LD_C_C"%string, o.LD_C_C);
  ("LD_C_D"%string, o.LD_C_D); ("LD_C_E"%string, o.LD_C_E); ("LD_C_H"%string, o.LD_C_H);
  ("LD_C_L"%string, o.LD_C_L); ("LD_C_BC"%string, o.LD_C_BC); ("LD_C_DE"%string, o.LD_C_DE);
  ("LD_C_HL"%string, o.LD_C_HL); ("LD_C_nn"%string, o.LD_C_nn); ("LD_C_n"%string, o.LD_C_n);
  ("LD_D_A"%string, o.LD_D_A); ("LD_D_B"%string, o.LD_D_B); ("LD_D_C"%string, o.LD_D_C);
  ("LD_D_D"%string, o.LD_D_D); ("LD_D_E"%string, o.LD_D_E); ("LD_D_H"%string, o.LD_D_H);
  ("LD_D_L"%string, o.LD_D_L); ("LD_D_BC"%string, o.LD_D_BC); ("LD_D_DE"%string, o.LD_D_DE);
  ("LD_D_HL"%string, o.LD_D_HL); ("LD_D_nn"%string, o.LD_D_nn); ("LD_D_n"%string, o.LD_D_n);
  ("LD_E_A"%string, o.LD_E_A); ("LD_E_B"%string, o.LD_E_B); ("LD_E_C"%string, o.LD_E_C);
  ("LD_E_D"%string, o.LD_E_D); ("LD_E_E"%string, o.LD_E_E); ("LD_E_H"%string, o.LD_E_H);
  ("LD_E_L"%string, o.LD_E_L); ("LD_E_BC"%string, o.LD_E_BC); ("LD_E_DE"%string, o.LD_E_DE);
  ("LD_E_HL"%string, o.LD_E_HL); ("LD_E_nn"%string, o.LD_E_nn); ("LD_E_n"%string, o.LD_E_n);
  ("LD_H_A"%string, o.LD_H_A); ("LD_H_B"%string, o.LD_H_B); ("LD_H_C"%string, o.LD_H_C);
  ("LD_H_D"%string, o.LD_H_D); ("LD_H_E"%string, o.LD_H_E); ("LD_H_H"%string, o.LD_H_H);
  ("LD_H_L"%string, o.LD_H_L); ("LD_H_BC"%string, o.LD_H_BC); ("LD_H_DE"%string, o.LD_H_DE);
  ("LD_H_HL"%string, o.LD_H_HL); ("LD_H_nn"%string, o.LD_H_nn); ("LD_H_n"%string, o.LD_H_n);
  ("LD_L_A"%string, o.LD_L_A); ("LD_L_B"%string, o.LD_L_B); ("LD_L_C"%string, o.LD_L_C);
  ("LD_L_D"%string, o.LD_L_D); ("LD_L_E"%string, o.LD_L_E); ("LD_L_H"%string, o.LD_L_H);
  ("LD_L_L"%string, o.LD_L_L); ("LD_L_BC"%string, o.LD_L_BC); ("LD_L_DE"%string, o.LD_L_DE);
  ("LD_L_HL"%string, o.LD_L_HL); ("LD_L_nn"%string, o.LD_L_nn); ("LD_L_n"%string, o.LD_L_n);
  ("LD_HL_B"%string, o.LD_HL_B); ("LD_HL_C"%string, o.LD_HL_C); ("LD_HL_D"%string, o.LD_HL_D);
  ("LD_HL_E"%string, o.LD_HL_E); ("LD_HL_H"%string, o.LD_HL_H); ("LD_HL_L"%string, o.LD_HL_L);
  ("LD_HL_n"%string, o.LD_HL_n); ("LD_BC_A"%string, o.LD_BC_A); ("LD_DE_A"%string, o.LD_DE_A);
  ("LD_HL_A"%string, o.LD_HL_A); ("LD_nn_A"%string, o.LD_nn_A); ("LD_A_FFC"%string, o.LD_A_FFC);
  ("LD_FFC_A"%string, o.LD_FFC_A); ("LD_A_HLD"%string, o.LD_A_HLD);
  ("LD_HLD_A"%string, o.LD_HLD_A); ("LD_A_HLI"%string, o.LD_A_HLI);
  ("LD_HLI_A"%string, o.LD_HLI_A); ("LD_FFn_A"%string, o.LD_FFn_A);
  ("LD_A_FFn"%string, o.LD_A_FFn); ("LD_BC_nn"%string, o.LD_BC_nn);
  ("LD_DE_nn"%string, o.LD_DE_nn); ("LD_HL_nn"%string, o.LD_HL_nn);
  ("LD_SP_nn"%string, o.LD_SP_nn); ("LD_SP_HL"%string, o.LD_SP_HL);
  ("LD_HL_SPn"%string, o.LD_HL_SPn); ("LD_nn_SP"%string, o.LD_nn_SP)
].

End Tables.
(** The cycle count at which [step] leaves a mode. *)
Definition threshold (mode : Modes) : Z :=
  match mode with OamRead => 80 | VramRead => 172 | HBlank => 204 | VBlank => 456 end.

(** The states [step] reaches from [s0] with non-negative cycle counts. *)
Inductive reachable (s0 : Gpu) : Gpu -> Prop :=
  | reachable_init : reachable s0 s0
  | reachable_step (s : Gpu) (cycles : Z) :
      reachable s0 s -> 0 <= cycles -> reachable s0 (fst (step s cycles)).

(** [step] called once for each count of a list. *)
Definition run (s : Gpu) (cycles : list Z) : Gpu :=
  fold_left (fun s n => fst (step s n)) cycles s.

(** The three calls that take one visible scanline from OamRead back to
    OamRead. *)
Definition scanline : list Z := [80; 172; 204].

(** ** Vocabulary of the further properties *)

(** A flag of [f] read as a condition, as in [r.f & Flags.C ? 1 : 0]. *)
Definition flag (r : IRegisterSet) (mask : Z) : bool := truthy (js_and r.(f) mask).

(** The 16-bit value of a register pair. *)
Definition word (hi lo : Z) : Z := hi * 256 + lo.

(** The bytes 0..255. *)
Definition all_bytes : list Z := map Z.of_nat (seq 0 256).

(** [step] over a list of cycle counts, with the console lines in order. *)
Definition run_log (s : Gpu) (cycles : list Z) : Gpu * list string :=
  fold_left (fun acc n => let '(s', out) := step (fst acc) n in (s', snd acc ++ out))
    cycles (s, []).

(** One frame in calls that each spend exactly the budget of the current
    mode: 143 scanlines of OamRead, VramRead and HBlank, then 11 lines of
    VBlank. *)
Definition frame_schedule : list Z :=
  concat (replicate 143 scanline) ++ replicate 11 456.

(** The lines that [step] pairs with each mode. *)
Definition line_inv (s : Gpu) : Prop :=
  match s.(_mode) with
  | VBlank => 143 <= s.(_line) <= 153
  | _ => 0 <= s.(_line) <= 142
  end.


(** * Properties *)

(** ** The integer operators *)

Lemma ToInt32_range x : - 2 ^ 31 <= ToInt32 x < 2 ^ 31.
Proof. unfold ToInt32. pose proof (Z.mod_pos_bound (x + 2 ^ 31) (2 ^ 32)). lia. Qed.

Lemma ToInt32_small x : - 2 ^ 31 <= x < 2 ^ 31 -> ToInt32 x = x.
Proof. intros Hx. unfold ToInt32. rewrite Z.mod_small; lia. Qed.

Lemma ToInt32_mod x n : 0 <= n <= 31 -> ToInt32 x mod 2 ^ n = x mod 2 ^ n.
Proof.
  intros Hn. unfold ToInt32.
  replace ((x + 2 ^ 31) mod 2 ^ 32 - 2 ^ 31) with ((x + 2 ^ 31) mod 2 ^ 32 + (- 2 ^ (31 - n)) * 2 ^ n).
  2:{ rewrite Z.mul_opp_l, <- Z.pow_add_r by lia. replace (31 - n + n) with 31 by lia. lia. }
  rewrite Z.mod_add by lia.
  replace (2 ^ 32) with (2 ^ n * 2 ^ (32 - n)) by (rewrite <- Z.pow_add_r by lia; f_equal; lia).
  rewrite Z.rem_mul_r by lia.
  rewrite Z.mul_comm, Z.mod_add by lia.
  rewrite Z.mod_mod by lia.
  replace (2 ^ 31) with (2 ^ (31 - n) * 2 ^ n) at 1 by (rewrite <- Z.pow_add_r by lia; f_equal; lia).
  rewrite Z.mod_add by lia. reflexivity.
Qed.

Lemma js_and_ones x n : 0 <= n <= 31 -> js_and x (Z.ones n) = x mod 2 ^ n.
Proof.
  intros Hn. unfold js_and.
  rewrite (ToInt32_small (Z.ones n)).
  - rewrite Z.land_ones by lia. apply ToInt32_mod. lia.
  - rewrite Z.ones_equiv. assert (0 < 2 ^ n <= 2 ^ 31).
    { split; [lia|]. apply Z.pow_le_mono_r; lia. } lia.
Qed.

Lemma js_and_255 x : js_and x 255 = x mod 256.
Proof. apply (js_and_ones x 8). lia. Qed.

Lemma js_and_65535 x : js_and x 65535 = x mod 65536.
Proof. apply (js_and_ones x 16). lia. Qed.

Lemma js_and_255_byte x : byte (js_and x 255).
Proof. rewrite js_and_255. unfold byte. pose proof (Z.mod_pos_bound x 256). lia. Qed.

Lemma js_and_65535_range x : 0 <= js_and x 65535 <= 65535.
Proof. rewrite js_and_65535. pose proof (Z.mod_pos_bound x 65536). lia. Qed.

Lemma lt_pow2_log2 x n : 0 <= n -> 0 <= x -> (x < 2 ^ n <-> x = 0 \/ Z.log2 x < n).
Proof.
  intros Hn Hx. destruct (Z.eq_dec x 0) as [->|Hne].
  - split; [auto|]. intros _. lia.
  - rewrite <- Z.log2_lt_pow2 by lia. split; [auto|]. intros [?|?]; [lia|auto].
Qed.

Lemma lor_bound x y n : 0 <= n -> 0 <= x < 2 ^ n -> 0 <= y < 2 ^ n -> 0 <= Z.lor x y < 2 ^ n.
Proof.
  intros Hn Hx Hy. split; [apply Z.lor_nonneg; lia|].
  assert (H0 : 0 <= Z.lor x y) by (apply Z.lor_nonneg; lia).
  apply lt_pow2_log2; [lia..|].
  destruct (Z.eq_dec (Z.lor x y) 0); [auto|right].
  rewrite Z.log2_lor by lia.
  destruct (Z.eq_dec x 0) as [->|]; destruct (Z.eq_dec y 0) as [->|];
    try (exfalso; apply n0; reflexivity).
  - change (Z.log2 0) with 0. rewrite Z.max_r by apply Z.log2_nonneg. apply Z.log2_lt_pow2; lia.
  - change (Z.log2 0) with 0. rewrite Z.max_l by apply Z.log2_nonneg. apply Z.log2_lt_pow2; lia.
  - apply Z.max_lub_lt; apply Z.log2_lt_pow2; lia.
Qed.

Lemma js_shl_byte_8 x : byte x -> js_shl x 8 = x * 256.
Proof.
  intros Hx. unfold js_shl, byte in *. change (Z.land 8 31) with 8.
  rewrite (ToInt32_small x) by lia.
  rewrite Z.shiftl_mul_pow2 by lia. apply ToInt32_small. lia.
Qed.

Lemma js_or_word x y : byte x -> byte y -> 0 <= js_or (js_shl x 8) y <= 65535.
Proof.
  intros Hx Hy. rewrite js_shl_byte_8 by done. unfold js_or, byte in *.
  rewrite !ToInt32_small by lia.
  pose proof (lor_bound (x * 256) y 16). lia.
Qed.

Lemma toSigned_range v : byte v -> -128 <= toSigned v <= 127.
Proof.
  intros Hv. unfold toSigned, byte in *. destruct (v <=? 127) eqn:E; [lia|].
  apply Z.leb_gt in E. rewrite js_and_255. unfold js_not.
  rewrite ToInt32_small by lia. unfold Z.lnot. replace (Z.pred (- v) + 1) with (- v) by lia.
  replace ((- v) mod 256) with (256 - v); [lia|].
  apply Z.mod_unique_pos with (q := -1); lia.
Qed.

Lemma js_or_byte x y : byte x -> byte y -> byte (js_or x y).
Proof.
  unfold byte, js_or. intros Hx Hy. rewrite !ToInt32_small by lia.
  pose proof (lor_bound x y 8). lia.
Qed.

Lemma js_or_nibble x y :
  byte x -> byte y -> Z.land x 0xF = 0 -> Z.land y 0xF = 0 -> Z.land (js_or x y) 0xF = 0.
Proof.
  unfold byte, js_or. intros Hx Hy Nx Ny. rewrite !ToInt32_small by lia.
  rewrite Z.land_lor_distr_l, Nx, Ny. reflexivity.
Qed.

Lemma js_flag_test (x flag : Z) : byte x -> byte flag -> js_and x flag = Z.land x flag.
Proof. unfold byte, js_and. intros Hx Hflag. rewrite !ToInt32_small by lia. reflexivity. Qed.

(** [toString(16)] can be read back, so a message built from it names
    one opcode only. *)
Lemma toString16_inj (x y : Z) : 0 <= x -> 0 <= y -> toString16 x = toString16 y -> x = y.
Proof.
  intros Hx Hy Heq.
  assert (Hread : forall z, 0 <= z -> Z.of_N (HexString.Raw.to_N (toString16 z) 0) = z).
  { intros [|p|p] Hz; [reflexivity| |lia].
    unfold toString16. rewrite HexString.Raw.to_N_of_pos. reflexivity. }
  rewrite <- (Hread x Hx), <- (Hread y Hy), Heq. reflexivity.
Qed.

(** ** Reading the tables *)

Lemma table_from_lookup {A : Type} (Q : Z -> A -> Prop) (arr : list (option A)) :
  forall k n x, table_from Q k arr -> arr !! n = Some (Some x) -> Q (k + Z.of_nat n) x.
Proof.
  induction arr as [|entry arr IH]; intros k n x Ht Hl; [discriminate|].
  destruct Ht as [Hhd Htl]. destruct n as [|n]; simpl in Hl.
  - injection Hl as ->. replace (k + Z.of_nat 0) with k by lia. exact Hhd.
  - replace (k + Z.of_nat (S n)) with (k + 1 + Z.of_nat n) by lia. eauto.
Qed.

Lemma index_Some {A : Type} (arr : list (option A)) (i : Z) (x : A) :
  index arr i = Some x -> 0 <= i /\ arr !! Z.to_nat i = Some (Some x).
Proof.
  unfold index. destruct (0 <=? i) eqn:E; [|discriminate].
  apply Z.leb_le in E. intros Hj. split; [exact E|].
  destruct (arr !! Z.to_nat i) as [[y|]|]; simpl in Hj; congruence.
Qed.

Lemma table_from_index {A : Type} (Q : Z -> A -> Prop) (arr : list (option A)) :
  table_from Q 0 arr -> forall i x, index arr i = Some x -> Q i x.
Proof.
  intros Ht i x Hi. apply index_Some in Hi as [Hi Hl].
  replace i with (0 + Z.of_nat (Z.to_nat i)) by lia.
  eapply table_from_lookup; eauto.
Qed.

(** ** Unfolding operations *)

Create HintDb ops discriminated.
#[export] Hint Unfold
  o.LD_A_A o.LD_A_B o.LD_A_C o.LD_A_D o.LD_A_E o.LD_A_H o.LD_A_L o.LD_A_BC o.LD_A_DE o.LD_A_HL
  o.LD_A_nn o.LD_A_n o.LD_B_A o.LD_B_B o.LD_B_C o.LD_B_D o.LD_B_E o.LD_B_H o.LD_B_L o.LD_B_BC
  o.LD_B_DE o.LD_B_HL o.LD_B_nn o.LD_B_n o.LD_C_A o.LD_C_B o.LD_C_C o.LD_C_D o.LD_C_E o.LD_C_H
  o.LD_C_L o.LD_C_BC o.LD_C_DE o.LD_C_HL o.LD_C_nn o.LD_C_n o.LD_D_A o.LD_D_B o.LD_D_C o.LD_D_D
  o.LD_D_E o.LD_D_H o.LD_D_L o.LD_D_BC o.LD_D_DE o.LD_D_HL o.LD_D_nn o.LD_D_n o.LD_E_A o.LD_E_B
  o.LD_E_C o.LD_E_D o.LD_E_E o.LD_E_H o.LD_E_L o.LD_E_BC o.LD_E_DE o.LD_E_HL o.LD_E_nn o.LD_E_n
  o.LD_H_A o.LD_H_B o.LD_H_C o.LD_H_D o.LD_H_E o.LD_H_H o.LD_H_L o.LD_H_BC o.LD_H_DE o.LD_H_HL
  o.LD_H_nn o.LD_H_n o.LD_L_A o.LD_L_B o.LD_L_C o.LD_L_D o.LD_L_E o.LD_L_H o.LD_L_L o.LD_L_BC
  o.LD_L_DE o.LD_L_HL o.LD_L_nn o.LD_L_n o.LD_HL_B o.LD_HL_C o.LD_HL_D o.LD_HL_E o.LD_HL_H
  o.LD_HL_L o.LD_HL_n o.LD_BC_A o.LD_DE_A o.LD_HL_A o.LD_nn_A o.LD_A_FFC o.LD_FFC_A o.LD_A_HLD
  o.LD_HLD_A o.LD_A_HLI o.LD_HLI_A o.LD_FFn_A o.LD_A_FFn o.LD_BC_nn o.LD_DE_nn o.LD_HL_nn
  o.LD_SP_nn o.LD_SP_HL o.LD_HL_SPn o.LD_nn_SP o.PUSH_AF o.PUSH_BC o.PUSH_DE o.PUSH_HL o.POP_AF
  o.POP_BC o.POP_DE o.POP_HL o.ADD_A o.ADD_B o.ADD_C o.ADD_D o.ADD_E o.ADD_H o.ADD_L o.ADD_HLM
  o.ADD_n o.ADC_A o.ADC_B o.ADC_C o.ADC_D o.ADC_E o.ADC_H o.ADC_L o.ADC_HLM o.ADC_n o.SUB_A
  o.SUB_B o.SUB_C o.SUB_D o.SUB_E o.SUB_H o.SUB_L o.SUB_HLM o.SUB_n o.SBC_A o.SBC_B o.SBC_C
  o.SBC_D o.SBC_E o.SBC_H o.SBC_L o.SBC_HLM o.AND_A o.AND_B o.AND_C o.AND_D o.AND_E o.AND_H
  o.AND_L o.AND_HLM o.AND_n o.OR_A o.OR_B o.OR_C o.OR_D o.OR_E o.OR_H o.OR_L o.OR_HLM o.OR_n
  o.XOR_A o.XOR_B o.XOR_C o.XOR_D o.XOR_E o.XOR_H o.XOR_L o.XOR_HLM o.XOR_n o.CP_A o.CP_B
  o.CP_C o.CP_D o.CP_E o.CP_H o.CP_L o.CP_HLM o.CP_n o.INC_A o.INC_B o.INC_C o.INC_D o.INC_E
  o.INC_H o.INC_L o.INC_HLM o.DEC_A o.DEC_B o.DEC_C o.DEC_D o.DEC_E o.DEC_H o.DEC_L o.DEC_HLM
  o.ADD_HL_BC o.ADD_HL_DE o.ADD_HL_HL o.ADD_HL_SP o.ADD_SP_n o.INC_BC o.INC_DE o.INC_HL
  o.INC_SP o.DEC_BC o.DEC_DE o.DEC_HL o.DEC_SP o.SWAP_A o.SWAP_B o.SWAP_C o.SWAP_D o.SWAP_E
  o.SWAP_H o.SWAP_L o.SWAP_HLM o.NOP
  : ops.

Ltac unfold_ops :=
  autounfold with ops;
  cbv beta iota zeta delta [createOp postinc predec add sub and_ or_ xor cp inc dec inc2 dec2
                            addHl swap resetFlags get set a b c d e h l f pc sp bytes8
                            PUSH POP high low] in *.

Ltac split_ifs :=
  repeat match goal with
         | |- context [if ?c then _ else _] => destruct c
         end.

(** [x] mentions no variable of the context. *)
Ltac is_closed x :=
  tryif (match goal with v : _ |- _ => lazymatch x with context [v] => idtac end end)
  then fail else idtac.

Ltac range_goal :=
  lazymatch goal with
  | |- byte (js_and _ 255) => apply js_and_255_byte
  | |- 0 <= js_and _ 65535 <= 65535 => apply js_and_65535_range
  | |- 0 <= js_or (js_shl _ 8) _ <= 65535 => apply js_or_word; auto
  | |- 0 <= rw _ _ <= 65535 => auto
  | |- byte (rb _ _) => auto
  | |- byte ?x => assumption || (is_closed x; vm_compute; split; discriminate)
  | |- Z.land ?x _ = 0 => assumption || lia || (is_closed x; vm_compute; reflexivity)
  | |- _ => lia
  end.

Ltac op_crush :=
  intros [a0 b0 c0 d0 e0 h0 l0 f0 pc0 sp0] m (Ha & Hb & Hc & Hd & He & Hh & Hl & Hf) Hm;
  pose proof (toSigned_range (rb m pc0) (Hm pc0));
  unfold_ops; split_ifs;
  cbv beta iota zeta delta [get set a b c d e h l f pc sp];
  refine (conj (conj _ (conj _ (conj _ (conj _ (conj _ (conj _ (conj _ _)))))))
            (conj _ (conj _ _)));
  intros; range_goal.

(** ** The registers *)


Lemma get_set_other (r : IRegisterSet) (key key' : keyof_IRegisterSet) (v : Z) :
  key <> key' -> r.[key <- v].[key'] = r.[key'].
Proof. destruct r, key, key'; intros Hne; try reflexivity; congruence. Qed.

(** ** The arithmetic primitives *)

(** What [add] computes: everything the architecture asks for except the
    half carry, which no path sets. *)
Lemma add_flags (r : IRegisterSet) (v : Z) :
  byte r.(a) -> byte v ->
  let r' := add r v in
  r'.(a) = (r.(a) + v) mod 256 /\
  (js_and r'.(f) Flags.Z <> 0 <-> (r.(a) + v) mod 256 = 0) /\
  js_and r'.(f) Flags.N = 0 /\
  (js_and r'.(f) Flags.C <> 0 <-> r.(a) + v > 255) /\
  js_and r'.(f) Flags.H = 0.
Proof.
  destruct r as [a0 b0 c0 d0 e0 h0 l0 f0 pc0 sp0]. unfold byte. intros Ha Hv.
  cbv beta iota zeta delta [add resetFlags get set a b c d e h l f pc sp].
  rewrite js_and_255.
  destruct (Z.eqb_spec ((a0 + v) mod 256) 0) as [Hz|Hz];
    destruct (Z.ltb_spec 255 (a0 + v)) as [Hc|Hc];
    cbv beta iota zeta delta [get set a b c d e h l f pc sp];
    rewrite js_and_255;
    (split; [reflexivity|]); vm_compute js_and; vm_compute js_or.
  all: repeat split; intros; try lia; try discriminate; try congruence.
Qed.

(** ** C1: the 8-bit add *)

(** C1 (the code departs from the claim): [add] at a = 0xFF and
    v = 0x01 gives the result 0x00 with Z and C set and N clear, as the
    claim says, but leaves H clear, where the claim has H set because
    (0xF + 0x1) > 0xF. *)
Theorem add_0xFF_0x01_leaves_H_clear :
  let r := add (Cpu_new.(_r)).[ka <- 0xFF] 0x01 in
  r.(a) = 0x00 /\
  js_and r.(f) Flags.Z = Flags.Z /\
  js_and r.(f) Flags.C = Flags.C /\
  js_and r.(f) Flags.N = 0 /\
  js_and r.(f) Flags.H = 0.
Proof. vm_compute. repeat split. Qed.

(** ** C8: increment and decrement *)




(** ** C4: addresses taken from a register pair *)

(** The address handed to the memory by LD A,(HL) and its siblings. *)
Lemma pair_address_is_a_shift {M : Type} `{!IMemory M} (r : IRegisterSet) (m : M) :
  (let '(_, r', _) := o.LD_A_HL r m in r'.(a) = rb m (js_shl r.(h) (8 + r.(l)))) /\
  (let '(_, r', _) := o.LD_A_BC r m in r'.(a) = rb m (js_shl r.(b) (8 + r.(c)))) /\
  (let '(_, r', _) := o.LD_A_DE r m in r'.(a) = rb m (js_shl r.(d) (8 + r.(e)))) /\
  (let '(_, _, m') := o.LD_HL_A r m in m' = wb m (js_shl r.(h) (8 + r.(l))) r.(a)).
Proof. destruct r. repeat split. Qed.

(** C4 (the code departs from the claim): with h = 0x01 and l = 0x01,
    over a memory holding 0xAA at 0x0101 and 0xBB at 0x0200, LD A,(HL)
    loads 0xBB: the address is 0x01 << (8 + 0x01) = 0x0200 and not
    0x01 * 256 + 0x01 = 0x0101; LD (HL),A stores to 0x0200 likewise. *)
Theorem LD_A_HL_reads_shifted_address :
  let m := wb (wb Mmu.new 0x0101 0xAA) 0x0200 0xBB in
  let r := (Cpu_new.(_r)).[kh <- 0x01].[kl <- 0x01].[ka <- 0x77] in
  rb m (r.(h) * 256 + r.(l)) = 0xAA /\
  js_shl r.(h) (8 + r.(l)) = 0x0200 /\
  (let '(_, r', _) := o.LD_A_HL r m in r'.(a) = 0xBB) /\
  (let '(_, _, m') := o.LD_HL_A r m in rb m' 0x0101 = 0xAA /\ rb m' 0x0200 = 0x77).
Proof. vm_compute. repeat split. Qed.

(** ** C9: PUSH then POP *)

#[export] Instance Mmu_ByteStore : ByteStore Mmu.Mmu.
Proof.
  split.
  - intros [arr] addr v Haddr Hv. unfold byte in Hv. simpl.
    unfold Mmu.rb, Mmu.wb, Mmu.load_element, Mmu.store_element, Mmu.in_array. simpl.
    destruct (Z.leb_spec 0 addr); [|lia]. destruct (Z.ltb_spec addr 65536); [|lia]. simpl.
    rewrite Z.eqb_refl. apply Z.mod_small. lia.
  - intros [arr] addr addr' v Hne. simpl.
    unfold Mmu.rb, Mmu.wb, Mmu.load_element, Mmu.store_element. simpl.
    destruct (Mmu.in_array addr); [|reflexivity].
    destruct (Mmu.in_array addr'); [|reflexivity].
    destruct (Z.eqb_spec addr' addr); [congruence|reflexivity].
Qed.

(** C9: for each of the pairs AF, BC, DE and HL, every value of its two
    halves and every sp in 0x0002..0xFFFE, over a memory where a written
    byte reads back, PUSH followed by POP restores both halves of the pair
    and returns sp to its value before the push; the whole register set is
    as it was. *)
Theorem push_pop_roundtrip {M : Type} `{!IMemory M} `{!ByteStore M}
    (p : Pair) (r : IRegisterSet) (m : M) :
  0x0002 <= r.(sp) <= 0xFFFE -> byte r.[high p] -> byte r.[low p] ->
  let '(_, r1, m1) := PUSH p r m in
  let '(_, r2, _) := POP p r1 m1 in
  r2.[high p] = r.[high p] /\ r2.[low p] = r.[low p] /\ r2.(sp) = r.(sp) /\ r2 = r.
Proof.
  destruct r as [a0 b0 c0 d0 e0 h0 l0 f0 pc0 sp0]. intros Hsp Hhi Hlo.
  assert (Hlow : forall lo hi, byte lo ->
            rb (wb (wb m (sp0 - 1) hi) (sp0 - 1 - 1) lo) (sp0 - 1 - 1) = lo).
  { intros lo hi Hb. apply rb_wb_same; [simpl in Hsp; lia|exact Hb]. }
  assert (Hhigh : forall lo hi, byte hi ->
            rb (wb (wb m (sp0 - 1) hi) (sp0 - 1 - 1) lo) (sp0 - 1 - 1 + 1) = hi).
  { intros lo hi Hb. replace (sp0 - 1 - 1 + 1) with (sp0 - 1) by lia.
    rewrite rb_wb_other by lia. apply rb_wb_same; [simpl in Hsp; lia|exact Hb]. }
  destruct p; cbv beta iota delta [PUSH POP high low] in *; unfold_ops.
  all: rewrite Hlow, Hhigh by assumption.
  all: replace (sp0 - 1 - 1 + 1 + 1) with sp0 by lia; repeat split.
Qed.

Lemma push_pop_roundtrip_witness :
  let r := (Cpu_new.(_r)).[kb <- 0x12].[kc <- 0x34].[ksp <- 0xFFFE] in
  let '(_, r1, m1) := PUSH BC r Mmu.new in
  let '(_, r2, _) := POP BC r1 m1 in
  r1.(sp) = 0xFFFC /\ rb m1 0xFFFD = 0x12 /\ rb m1 0xFFFC = 0x34 /\
  r2.(b) = 0x12 /\ r2.(c) = 0x34 /\ r2.(sp) = 0xFFFE.
Proof.
  pose proof (push_pop_roundtrip BC ((Cpu_new.(_r)).[kb <- 0x12].[kc <- 0x34].[ksp <- 0xFFFE])
                Mmu.new) as Hw.
  assert (H1 : 0x0002 <= 0xFFFE <= 0xFFFE) by lia.
  assert (H2 : byte 0x12) by (unfold byte; lia).
  assert (H3 : byte 0x34) by (unfold byte; lia).
  specialize (Hw H1 H2 H3). vm_compute in Hw. vm_compute. tauto.
Defined.

(** ** C10: loads and stores keep the flags *)

(** C10: every entry of [o] whose name starts with LD_, the forms through
    HL with increment or decrement and the 0xFF00-page forms among them,
    leaves the flags register as it was, for every register state and
    memory. *)
Theorem LD_entries_keep_flags {M : Type} `{!IMemory M} :
  Forall (fun entry : string * IOperation M =>
            forall r m, let '(_, r', _) := snd entry r m in r'.(f) = r.(f))
         LD_entries.
Proof.
  unfold LD_entries.
  repeat match goal with
         | |- Forall _ (_ :: _) => apply List.Forall_cons
         | |- Forall _ [] => apply List.Forall_nil
         end.
  all: cbv beta; intros [a0 b0 c0 d0 e0 h0 l0 f0 pc0 sp0] m; cbn [snd]; unfold_ops;
    split_ifs; reflexivity.
Qed.

(** ** The GPU: C2 and C3 *)

Lemma reachable_run (s0 : Gpu) (cycles : list Z) :
  forall s, reachable s0 s -> Forall (fun n => 0 <= n) cycles -> reachable s0 (run s cycles).
Proof.
  induction cycles as [|n cycles IH]; intros s Hs Hall; [exact Hs|].
  apply Forall_cons in Hall as [Hn Hall]. simpl.
  apply IH; [|exact Hall]. apply reachable_step; assumption.
Qed.

(** The lines [step] pairs with each mode: it enters VBlank when the
    incremented line is 143 and leaves it after line 153. *)
Lemma reachable_lines (s : Gpu) :
  reachable {| _mode := OamRead; _modeclock := 0; _line := 0 |} s ->
  match s.(_mode) with
  | VBlank => 143 <= s.(_line) <= 153
  | _ => 0 <= s.(_line) <= 142
  end.
Proof.
  induction 1 as [|[mode clock line] cycles Hreach IH Hcycles]; [simpl; lia|].
  simpl in IH. unfold step. simpl.
  destruct mode; simpl;
    repeat match goal with
           | |- context [if ?c then _ else _] => destruct c eqn:?
           end; simpl; lia.
Qed.

(** C2 (the code departs from the claim): the state {HBlank, 0, 142} is
    reached from {OamRead, 0, 0} by 142 whole scanlines and the calls
    step(80), step(172); there step(204) increments line to 143 and
    enters VBlank, where the claim enters VBlank exactly when the
    incremented line is 144 and bounds line from below by 144 in VBlank.
    Nothing is signalled on that transition. *)
Theorem step_enters_VBlank_at_line_143 :
  let s0 := {| _mode := OamRead; _modeclock := 0; _line := 0 |} in
  let s := {| _mode := HBlank; _modeclock := 0; _line := 142 |} in
  reachable s0 s /\
  step s 204 = ({| _mode := VBlank; _modeclock := 0; _line := 143 |}, []) /\
  reachable s0 {| _mode := VBlank; _modeclock := 0; _line := 143 |}.
Proof.
  set (calls := concat (replicate 142 scanline) ++ [80; 172]).
  assert (Hnonneg : forall cs, forallb (fun n => 0 <=? n) cs = true ->
                               Forall (fun n => 0 <= n) cs).
  { intros cs Hcs. apply List.Forall_forall. intros n Hn.
    rewrite forallb_forall in Hcs. apply Z.leb_le, Hcs, Hn. }
  cbv zeta. split; [|split].
  - change {| _mode := HBlank; _modeclock := 0; _line := 142 |}
      with (run {| _mode := OamRead; _modeclock := 0; _line := 0 |} calls).
    apply reachable_run; [apply reachable_init|]. apply Hnonneg. reflexivity.
  - reflexivity.
  - change {| _mode := VBlank; _modeclock := 0; _line := 143 |}
      with (run {| _mode := OamRead; _modeclock := 0; _line := 0 |} (calls ++ [204])).
    apply reachable_run; [apply reachable_init|]. apply Hnonneg. reflexivity.
Qed.




(** ** The CPU engine: C5, C6 and C7 *)

Section CycleFacts.
Context {M : Type} `{!IMemory M}.

Lemma cycle_Some (this : Cpu) (m : M) (op : IOperation M) :
  index oMap (rb m this.(_r).(pc)) = Some op ->
  cycle this m =
    let '(cycles, r, m') := op (this.(_r)).[kpc <- this.(_r).(pc) + 1] m in
    (Normal, {| _c := this.(_c) + cycles; _r := r |}, m').
Proof.
  destruct this as [clock [a0 b0 c0 d0 e0 h0 l0 f0 pc0 sp0]]. simpl. intros Hop.
  unfold cycle, postinc. simpl. rewrite Hop. reflexivity.
Qed.

Lemma cycle_None (this : Cpu) (m : M) :
  index oMap (rb m this.(_r).(pc)) = None ->
  cycle this m =
    (Throw {| message := String.append "opcode 0x"%string
                (String.append (toString16 (rb m this.(_r).(pc))) " not implemented"%string) |},
     {| _c := this.(_c); _r := (this.(_r)).[kpc <- this.(_r).(pc) + 1] |},
     m).
Proof.
  destruct this as [clock [a0 b0 c0 d0 e0 h0 l0 f0 pc0 sp0]]. simpl. intros Hop.
  unfold cycle, postinc. simpl. rewrite Hop. reflexivity.
Qed.

(** Every populated slot of the primary table keeps the 8-bit fields in
    range. *)
Lemma oMap_ranges : table_from op_ranges 0 (oMap (M := M)).
Proof.
  cbn [table_from oMap].
  repeat match goal with |- _ /\ _ => split end; try exact I.
  all: op_crush.
Qed.

(** C5 (amended): after every call of [cycle], whether the opcode is
    populated or not, from registers whose 8-bit fields are bytes and a
    memory whose bytes are in 0..255: every 8-bit field {a,b,c,d,e,h,l,f}
    is in [0,255]; for every opcode other than 0xF1 (POP AF) a low nibble
    of f that was 0 stays 0; pc is not reduced modulo 65536: it has
    grown by 1, 2 or 3; and sp stays in 0..65535 when it started in
    128..65408 and the memory's words are in 0..65535. *)
Theorem cycle_register_ranges (this : Cpu) (m : M) :
  bytes8 this.(_r) -> (forall addr, byte (rb m addr)) ->
  let '(_, this', _) := cycle this m in
  bytes8 this'.(_r) /\
  (rb m this.(_r).(pc) <> 0xF1 ->
     Z.land this.(_r).(f) 0xF = 0 -> Z.land this'.(_r).(f) 0xF = 0) /\
  (this.(_r).(pc) + 1 <= this'.(_r).(pc) <= this.(_r).(pc) + 3) /\
  ((forall addr, 0 <= rw m addr <= 65535) -> 128 <= this.(_r).(sp) <= 65408 ->
     0 <= this'.(_r).(sp) <= 65535).
Proof.
  intros Hbytes Hmem.
  destruct (index oMap (rb m this.(_r).(pc))) as [op|] eqn:Hop.
  - rewrite (cycle_Some _ _ _ Hop).
    pose proof (table_from_index _ _ oMap_ranges _ _ Hop
                  (this.(_r)).[kpc <- this.(_r).(pc) + 1] m) as Hr.
    destruct this as [clock [a0 b0 c0 d0 e0 h0 l0 f0 pc0 sp0]]. simpl in *.
    specialize (Hr Hbytes Hmem).
    destruct (op _ m) as [[cycles r'] m']. simpl.
    destruct Hr as (Hb & Hn & Hpc & Hsp).
    split; [exact Hb|]. split; [exact Hn|]. split; [lia|exact Hsp].
  - rewrite (cycle_None _ _ Hop).
    destruct this as [clock [a0 b0 c0 d0 e0 h0 l0 f0 pc0 sp0]]. simpl in *.
    split; [exact Hbytes|]. split; [auto|]. split; lia.
Qed.

(** C6 (amended): for every opcode byte whose slot of the primary table
    is unpopulated, [cycle] throws an Error whose message names that
    exact byte in hexadecimal and does not mention pc; the program counter
    has been advanced past the opcode, and nothing else has changed: the
    other registers, the clock and the memory are as before. *)
Theorem cycle_unpopulated_opcode (this : Cpu) (m : M) :
  index oMap (rb m this.(_r).(pc)) = None ->
  cycle this m =
    (Throw {| message := String.append "opcode 0x"%string
                (String.append (toString16 (rb m this.(_r).(pc))) " not implemented"%string) |},
     {| _c := this.(_c); _r := (this.(_r)).[kpc <- this.(_r).(pc) + 1] |},
     m).
Proof. apply cycle_None. Qed.

End CycleFacts.

(** C5 (counterexample): from pc = 0xFFFF, over the memory that reads 0
    everywhere, the NOP at pc leaves pc = 65536, outside 0..65535; and
    on the reset CPU, over the array memory whose first byte is 0xC5,
    PUSH BC leaves sp = -2, outside 0..65535 (only INC SP and DEC SP
    mask sp). *)
Lemma cycle_leaves_pc_and_sp_unwrapped :
  (let this := {| _c := 0; _r := (Cpu_new.(_r)).[kpc <- 0xFFFF] |} in
   let m : Mmu0.Mmu := tt in
   bytes8 this.(_r) /\ Z.land this.(_r).(f) 0xF = 0 /\
   this.(_r).(pc) mod 65536 = this.(_r).(pc) /\ this.(_r).(sp) mod 65536 = this.(_r).(sp) /\
   (forall addr, byte (rb m addr)) /\
   let '(_, this', _) := cycle this m in
   this'.(_r).(pc) = 65536 /\ this'.(_r).(pc) mod 65536 <> this'.(_r).(pc)) /\
  (let this := Cpu_new in
   let m := wb Mmu.new 0 0xC5 in
   bytes8 this.(_r) /\ Z.land this.(_r).(f) 0xF = 0 /\
   this.(_r).(pc) mod 65536 = this.(_r).(pc) /\ this.(_r).(sp) mod 65536 = this.(_r).(sp) /\
   (forall addr, 0 <= addr <= 65535 -> byte (rb m addr)) /\
   let '(completion, this', _) := cycle this m in
   completion = Normal /\ this'.(_r).(sp) = -2 /\
   this'.(_r).(sp) mod 65536 <> this'.(_r).(sp)).
Proof.
  cbv zeta. split.
  - repeat split; try (vm_compute; discriminate).
  - split; [repeat split; vm_compute; discriminate|].
    split; [reflexivity|]. split; [reflexivity|]. split; [reflexivity|]. split.
    + intros addr Haddr. simpl.
      unfold Mmu.rb, Mmu.wb, Mmu.load_element, Mmu.store_element, Mmu.new. simpl.
      destruct (Mmu.in_array addr); [destruct (addr =? 0)|];
        split; vm_compute; discriminate.
    + vm_compute. repeat split. discriminate.
Qed.

Lemma cycle_register_ranges_witness :
  let this := {| _c := 0;
                 _r := {| a := 0x12; b := 0x34; c := 0x56; d := 0x78; e := 0x9A; h := 0xBC;
                          l := 0xDE; f := 0xB0; pc := 0x0100; sp := 0x8000 |} |} in
  let '(_, this', _) := cycle this (tt : Mmu0.Mmu) in
  bytes8 this'.(_r) /\ Z.land this'.(_r).(f) 0xF = 0 /\
  this'.(_r).(pc) = 0x0101 /\ 0 <= this'.(_r).(sp) <= 65535.
Proof.
  cbv zeta.
  set (this := {| _c := 0;
                  _r := {| a := 0x12; b := 0x34; c := 0x56; d := 0x78; e := 0x9A; h := 0xBC;
                           l := 0xDE; f := 0xB0; pc := 0x0100; sp := 0x8000 |} |}).
  assert (H1 : bytes8 this.(_r)) by (repeat split; vm_compute; discriminate).
  assert (H2 : forall addr, byte (rb (tt : Mmu0.Mmu) addr))
    by (intros addr; split; vm_compute; discriminate).
  pose proof (cycle_register_ranges this (tt : Mmu0.Mmu) H1 H2) as Hw.
  destruct (cycle this (tt : Mmu0.Mmu)) as [[completion this'] m'] eqn:Hc.
  destruct Hw as (Hb & Hn & Hp & Hs).
  split; [exact Hb|]. split; [apply Hn; [discriminate|reflexivity]|]. split.
  - vm_compute in Hc. injection Hc as _ <- _. reflexivity.
  - apply Hs; [intros addr; split; vm_compute; discriminate | vm_compute; split; discriminate].
Defined.

(** POP AF, opcode 0xF1, loads f from the stack as it is: on the reset
    CPU, over a memory whose first byte is 0xF1, f ends as 0xF1, with a
    low nibble of 1. *)
Lemma POP_AF_loads_low_nibble :
  let '(completion, this', _) := cycle Cpu_new (wb Mmu.new 0 0xF1) in
  completion = Normal /\ this'.(_r).(f) = 0xF1 /\ Z.land this'.(_r).(f) 0xF = 1.
Proof. vm_compute. repeat split. Qed.

(** C6 (counterexample): on the reset CPU, over a memory whose first
    byte is the unpopulated opcode 0xD3, [cycle] throws and leaves
    pc = 1: the register state is not the one before the call, and the
    message does not carry pc. *)
Lemma cycle_unpopulated_mutates_pc :
  let m := wb Mmu.new 0 0xD3 in
  index (oMap (M := Mmu.Mmu)) (rb m Cpu_new.(_r).(pc)) = None /\
  let '(completion, this', _) := cycle Cpu_new m in
  completion = Throw {| message := "opcode 0xd3 not implemented" |} /\
  this'.(_r).(pc) = 1 /\ this'.(_r) <> Cpu_new.(_r).
Proof. vm_compute. repeat split. discriminate. Qed.

Lemma cycle_unpopulated_opcode_witness :
  let m := wb Mmu.new 0 0xD3 in
  fst (fst (cycle Cpu_new m)) = Throw {| message := "opcode 0xd3 not implemented" |} /\
  snd (fst (cycle Cpu_new m)) =
    {| _c := 0; _r := (Cpu_new.(_r)).[kpc <- 1] |}.
Proof.
  cbv zeta.
  assert (H1 : index (oMap (M := Mmu.Mmu)) (rb (wb Mmu.new 0 0xD3) Cpu_new.(_r).(pc)) = None)
    by reflexivity.
  rewrite (cycle_unpopulated_opcode Cpu_new (wb Mmu.new 0 0xD3) H1).
  split; reflexivity.
Defined.

(** C7 (the code departs from the claim): slot 0x37 of the CB table is
    populated with SWAP A, which costs 2 cycles and turns a = 0x12 into
    0x21; but slot 0xCB of the primary table is unpopulated and [cycle]
    looks nowhere else, so on the bytes 0xCB 0x37 it throws with pc
    advanced by 1 only, a unchanged and no cycle counted, where the claim
    has the CB entry run, its cost returned and pc advanced by 2. *)
Theorem cycle_0xCB_throws :
  let m := wb (wb Mmu.new 0 0xCB) 1 0x37 in
  let this := {| _c := 0; _r := (Cpu_new.(_r)).[ka <- 0x12] |} in
  index (oCbMap (M := Mmu.Mmu)) 0x37 = Some o.SWAP_A /\
  (let '(cycles, r', _) := o.SWAP_A this.(_r) m in cycles = 2 /\ r'.(a) = 0x21) /\
  index (oMap (M := Mmu.Mmu)) 0xCB = None /\
  let '(completion, this', _) := cycle this m in
  completion = Throw {| message := "opcode 0xcb not implemented" |} /\
  this'.(_r).(pc) = 1 /\ this'.(_r).(a) = 0x12 /\ this'.(_c) = 0.
Proof. cbv zeta. split; [reflexivity|]. vm_compute. repeat split. Qed.


(** * Further properties of the code *)

(** ** Proof steps of the further properties *)

Ltac simpl_op :=
  autounfold with ops;
  cbv beta iota zeta delta
    [createOp postinc predec add sub and_ or_ xor cp inc dec inc2 dec2 addHl swap
     resetFlags get set a b c d e h l f pc sp fst snd].

(** Case analysis on a condition that contains no other conditional. *)
Ltac innermost_if :=
  match goal with
  | |- context [if ?c then _ else _] =>
      lazymatch c with
      | context [if _ then _ else _] => fail
      | _ => destruct c
      end
  end.

Ltac run_op := simpl_op; repeat (innermost_if; simpl_op).

Lemma byte_flag_Z : byte Flags.Z. Proof. vm_compute. split; discriminate. Qed.
Lemma byte_flag_N : byte Flags.N. Proof. vm_compute. split; discriminate. Qed.
Lemma byte_flag_H : byte Flags.H. Proof. vm_compute. split; discriminate. Qed.
Lemma byte_flag_C : byte Flags.C. Proof. vm_compute. split; discriminate. Qed.
Lemma byte_0 : byte 0. Proof. vm_compute. split; discriminate. Qed.
Lemma nibble_flag_Z : Z.land Flags.Z 0xF = 0. Proof. reflexivity. Qed.
Lemma nibble_flag_N : Z.land Flags.N 0xF = 0. Proof. reflexivity. Qed.
Lemma nibble_flag_H : Z.land Flags.H 0xF = 0. Proof. reflexivity. Qed.
Lemma nibble_flag_C : Z.land Flags.C 0xF = 0. Proof. reflexivity. Qed.
Lemma nibble_0 : Z.land 0 0xF = 0. Proof. reflexivity. Qed.

Create HintDb flag_ranges discriminated.
#[export] Hint Resolve byte_flag_Z byte_flag_N byte_flag_H byte_flag_C byte_0
  nibble_flag_Z nibble_flag_N nibble_flag_H nibble_flag_C nibble_0
  js_or_byte js_or_nibble : flag_ranges.

(** ** Bytes by enumeration *)

Lemma byte_forall (P : Z -> bool) :
  forallb P all_bytes = true -> forall x, byte x -> P x = true.
Proof.
  intros HP x [Hlo Hhi]. rewrite forallb_forall in HP. apply HP.
  unfold all_bytes. replace x with (Z.of_nat (Z.to_nat x)) by lia.
  apply in_map. apply in_seq. lia.
Qed.

Lemma land_bound x y n : 0 <= n -> 0 <= x < 2 ^ n -> 0 <= y -> 0 <= Z.land x y < 2 ^ n.
Proof.
  intros Hn Hx Hy. split; [apply Z.land_nonneg; lia|].
  assert (H0 : 0 <= Z.land x y) by (apply Z.land_nonneg; lia).
  destruct (Z.eq_dec (Z.land x y) 0) as [->|Hne]; [lia|].
  apply Z.log2_lt_pow2; [lia|].
  eapply Z.le_lt_trans; [apply Z.log2_land; lia|].
  apply Z.min_lt_iff. left.
  destruct (Z.eq_dec x 0) as [->|]; [rewrite Z.land_0_l in Hne; contradiction|].
  apply Z.log2_lt_pow2; lia.
Qed.

(** ** The flag helpers *)

Lemma flag_unfold (r : IRegisterSet) (mask : Z) : flag r mask = truthy (js_and r.(f) mask).
Proof. reflexivity. Qed.

(** The registers that [add] and [sub] return, for any integers. *)
Lemma add_values (r : IRegisterSet) (v : Z) :
  add r v =
    r.[kf <- (if (r.(a) + v) mod 256 =? 0 then 0x80 else 0) + (if 255 <? r.(a) + v then 0x10 else 0)]
     .[ka <- (r.(a) + v) mod 256].
Proof.
  destruct r as [a0 b0 c0 d0 e0 h0 l0 f0 pc0 sp0]. unfold add, resetFlags. simpl_op.
  rewrite !js_and_255.
  destruct ((a0 + v) mod 256 =? 0); simpl_op; destruct (255 <? a0 + v); simpl_op; reflexivity.
Qed.

Lemma sub_values (r : IRegisterSet) (v : Z) :
  sub r v =
    r.[kf <- (if (r.(a) - v) mod 256 =? 0 then 0x80 else 0) + 0x40
             + (if r.(a) - v <? 0 then 0x10 else 0)]
     .[ka <- (r.(a) - v) mod 256].
Proof.
  destruct r as [a0 b0 c0 d0 e0 h0 l0 f0 pc0 sp0]. unfold sub, resetFlags. simpl_op.
  rewrite !js_and_255.
  destruct ((a0 - v) mod 256 =? 0); simpl_op; destruct (a0 - v <? 0); simpl_op; reflexivity.
Qed.

(** What [sub] leaves in [a] and in each flag. *)
Lemma sub_result (r : IRegisterSet) (v : Z) :
  let r' := sub r v in
  r'.(a) = (r.(a) - v) mod 256 /\
  flag r' Flags.Z = (r'.(a) =? 0) /\
  flag r' Flags.N = true /\
  flag r' Flags.C = (r.(a) <? v) /\
  flag r' Flags.H = false /\
  (forall key, key <> ka -> key <> kf -> r'.[key] = r.[key]).
Proof.
  cbv zeta. rewrite sub_values. destruct r as [a0 b0 c0 d0 e0 h0 l0 f0 pc0 sp0].
  unfold flag. cbn [get set a f].
  replace (a0 <? v) with (a0 - v <? 0)
    by (destruct (a0 - v <? 0) eqn:E1, (a0 <? v) eqn:E2; try reflexivity;
        [apply Z.ltb_lt in E1; apply Z.ltb_ge in E2 | apply Z.ltb_ge in E1; apply Z.ltb_lt in E2]; lia).
  destruct ((a0 - v) mod 256 =? 0), (a0 - v <? 0);
    (repeat split; try reflexivity; intros [] Ha Hf; try reflexivity; contradiction).
Qed.

(** X1: [sub] on bytes returns the difference modulo 256 in [a], sets
    Z exactly when that byte is 0, always sets N, sets C exactly when
    a < value, never sets H, and touches no other register. *)
Theorem sub_flags (r : IRegisterSet) (v : Z) :
  byte r.(a) -> byte v ->
  let r' := sub r v in
  r'.(a) = (r.(a) - v) mod 256 /\
  flag r' Flags.Z = (r'.(a) =? 0) /\
  flag r' Flags.N = true /\
  flag r' Flags.C = (r.(a) <? v) /\
  flag r' Flags.H = false /\
  (forall key, key <> ka -> key <> kf -> r'.[key] = r.[key]).
Proof. intros Ha Hv. exact (sub_result r v). Qed.

Lemma sub_flags_witness :
  let r := Cpu_new.(_r) in
  let r' := sub r 0x01 in
  r'.(a) = (r.(a) - 0x01) mod 256 /\
  flag r' Flags.Z = (r'.(a) =? 0) /\
  flag r' Flags.N = true /\
  flag r' Flags.C = (r.(a) <? 0x01) /\
  flag r' Flags.H = false /\
  (forall key, key <> ka -> key <> kf -> r'.[key] = r.[key]).
Proof. apply (sub_flags Cpu_new.(_r) 0x01); vm_compute; split; discriminate. Defined.

(** X2: [and_] on bytes returns the bitwise conjunction in [a], sets Z
    exactly when it is 0, always sets H and leaves N and C clear. *)
Theorem and_flags (r : IRegisterSet) (v : Z) :
  byte r.(a) -> byte v ->
  let r' := and_ r v in
  r'.(a) = Z.land r.(a) v /\
  flag r' Flags.Z = (r'.(a) =? 0) /\
  flag r' Flags.H = true /\ flag r' Flags.N = false /\ flag r' Flags.C = false.
Proof.
  destruct r as [a0 b0 c0 d0 e0 h0 l0 f0 pc0 sp0]. cbn [a]. intros Ha Hv. cbv zeta.
  assert (Hl : js_and a0 v = Z.land a0 v) by (unfold js_and, byte in *; rewrite !ToInt32_small by lia; reflexivity).
  assert (Hb : 0 <= Z.land a0 v <= 255).
  { unfold byte in *. pose proof (land_bound a0 v 8). lia. }
  unfold and_, resetFlags, flag. simpl_op. rewrite !js_and_255, Hl.
  rewrite (Z.mod_small (Z.land a0 v) 256) by lia.
  assert (E : (255 <? Z.land a0 v) = false) by (apply Z.ltb_ge; lia).
  destruct (Z.land a0 v =? 0) eqn:E0; simpl_op; rewrite E; simpl_op;
    rewrite ?js_and_255, ?(Z.mod_small (Z.land a0 v) 256), ?E0 by lia; repeat split; reflexivity.
Qed.

Lemma and_flags_witness :
  let r := Cpu_new.(_r).[ka <- 0xAA] in
  let r' := and_ r 0x55 in
  r'.(a) = Z.land r.(a) 0x55 /\
  flag r' Flags.Z = (r'.(a) =? 0) /\
  flag r' Flags.H = true /\ flag r' Flags.N = false /\ flag r' Flags.C = false.
Proof.
  apply (and_flags (Cpu_new.(_r).[ka <- 0xAA]) 0x55); vm_compute; split; discriminate.
Defined.

(** X3: [or_] and [xor] on bytes return the bitwise disjunction and the
    bitwise exclusive or in [a], and leave in [f] the Z flag alone, set
    exactly when the result is 0. *)
Theorem or_xor_flags (r : IRegisterSet) (v : Z) :
  byte r.(a) -> byte v ->
  (or_ r v).(a) = Z.lor r.(a) v /\
  (or_ r v).(f) = (if Z.lor r.(a) v =? 0 then Flags.Z else 0) /\
  (xor r v).(a) = Z.lxor r.(a) v /\
  (xor r v).(f) = (if Z.lxor r.(a) v =? 0 then Flags.Z else 0).
Proof.
  destruct r as [a0 b0 c0 d0 e0 h0 l0 f0 pc0 sp0]. cbn [a]. intros Ha Hv.
  assert (Ho : js_or a0 v = Z.lor a0 v)
    by (unfold js_or, byte in *; rewrite !ToInt32_small by lia; reflexivity).
  assert (Hx : js_xor a0 v = Z.lxor a0 v)
    by (unfold js_xor, byte in *; rewrite !ToInt32_small by lia; reflexivity).
  assert (Bo : 0 <= Z.lor a0 v < 2 ^ 8) by (unfold byte in *; apply lor_bound; lia).
  assert (Bx : 0 <= Z.lxor a0 v < 2 ^ 8).
  { unfold byte in *. split; [apply Z.lxor_nonneg; lia|].
    destruct (Z.eq_dec (Z.lxor a0 v) 0) as [->|Hne]; [lia|].
    apply Z.log2_lt_pow2; [pose proof (Z.lxor_nonneg a0 v); lia|].
    eapply Z.le_lt_trans; [apply Z.log2_lxor; lia|].
    apply Z.max_lub_lt.
    - destruct (Z.eq_dec a0 0) as [->|]; [simpl; lia|]. apply Z.log2_lt_pow2; lia.
    - destruct (Z.eq_dec v 0) as [->|]; [simpl; lia|]. apply Z.log2_lt_pow2; lia. }
  change (2 ^ 8) with 256 in Bo, Bx.
  unfold or_, xor, resetFlags. simpl_op. rewrite !js_and_255, Ho, Hx.
  rewrite (Z.mod_small (Z.lor a0 v) 256), (Z.mod_small (Z.lxor a0 v) 256) by lia.
  destruct (Z.lor a0 v =? 0), (Z.lxor a0 v =? 0); simpl_op;
    rewrite ?js_and_255, ?(Z.mod_small (Z.lor a0 v) 256), ?(Z.mod_small (Z.lxor a0 v) 256) by lia;
    repeat split; reflexivity.
Qed.

Lemma or_xor_flags_witness :
  let r := Cpu_new.(_r).[ka <- 0x0F] in
  (or_ r 0xF0).(a) = Z.lor r.(a) 0xF0 /\
  (or_ r 0xF0).(f) = (if Z.lor r.(a) 0xF0 =? 0 then Flags.Z else 0) /\
  (xor r 0xF0).(a) = Z.lxor r.(a) 0xF0 /\
  (xor r 0xF0).(f) = (if Z.lxor r.(a) 0xF0 =? 0 then Flags.Z else 0).
Proof.
  apply (or_xor_flags (Cpu_new.(_r).[ka <- 0x0F]) 0xF0); vm_compute; split; discriminate.
Defined.

(** X4: [cp] leaves every register but [f] as it was, [a] included, and
    leaves in [f] exactly the flags that [sub] computes. *)
Theorem cp_is_sub_without_result (r : IRegisterSet) (v : Z) :
  cp r v = r.[kf <- (sub r v).(f)].
Proof.
  rewrite sub_values. destruct r as [a0 b0 c0 d0 e0 h0 l0 f0 pc0 sp0].
  unfold cp, resetFlags. simpl_op. rewrite !js_and_255.
  destruct ((a0 - v) mod 256 =? 0); simpl_op; destruct (a0 - v <? 0); simpl_op; reflexivity.
Qed.

(** X5: on a byte, [toSigned] is the two's-complement reading: the byte
    itself below 128 and the byte minus 256 from 128 on, hence a value
    in -128..127 congruent to the byte modulo 256. *)
Theorem toSigned_twos_complement (v : Z) :
  byte v ->
  toSigned v = (if v <? 128 then v else v - 256) /\
  -128 <= toSigned v <= 127 /\ toSigned v mod 256 = v.
Proof.
  intros Hv. pose proof (toSigned_range v Hv) as Hr.
  assert (E : toSigned v = if v <? 128 then v else v - 256).
  { apply Z.eqb_eq.
    apply (byte_forall (fun x => toSigned x =? (if x <? 128 then x else x - 256)));
      [vm_compute; reflexivity | exact Hv]. }
  split; [exact E|]. split; [exact Hr|]. rewrite E. unfold byte in Hv.
  destruct (v <? 128) eqn:L; [apply Z.mod_small; lia|].
  apply Z.ltb_ge in L. symmetry. apply Z.mod_unique_pos with (q := -1); lia.
Qed.

Lemma toSigned_twos_complement_witness :
  toSigned 0xFE = (if 0xFE <? 128 then 0xFE else 0xFE - 256) /\
  -128 <= toSigned 0xFE <= 127 /\ toSigned 0xFE mod 256 = 0xFE.
Proof. apply (toSigned_twos_complement 0xFE). vm_compute. split; discriminate. Defined.

(** What [swap] does to one byte. *)
Lemma swap_byte (x : Z) :
  byte x ->
  let y := js_and (js_or (js_sar x 4) (js_shl x 4)) 255 in
  y = (x mod 16) * 16 + x / 16 /\ byte y /\ (y =? 0) = (x =? 0) /\
  js_and (js_or (js_sar y 4) (js_shl y 4)) 255 = x.
Proof.
  intros Hx. cbv zeta.
  pose proof (byte_forall (fun x =>
    let y := js_and (js_or (js_sar x 4) (js_shl x 4)) 255 in
    (y =? (x mod 16) * 16 + x / 16) && (0 <=? y) && (y <=? 255) &&
    Bool.eqb (y =? 0) (x =? 0) &&
    (js_and (js_or (js_sar y 4) (js_shl y 4)) 255 =? x))) as H.
  specialize (H ltac:(vm_compute; reflexivity) x Hx). cbv zeta in H.
  repeat (apply andb_true_iff in H as [H ?]).
  repeat split; try (apply Z.eqb_eq; assumption); try (apply Z.leb_le; assumption).
  apply Bool.eqb_prop. assumption.
Qed.

Lemma swap_value (key : keyof_IRegisterSet) (r : IRegisterSet) :
  In key registers8 ->
  let y := js_and (js_or (js_sar r.[key] 4) (js_shl r.[key] 4)) 255 in
  (swap r key).[key] = y /\
  (swap r key).(f) = (if js_and y 255 =? 0 then Flags.Z else 0).
Proof.
  intros Hk. destruct r as [a0 b0 c0 d0 e0 h0 l0 f0 pc0 sp0].
  unfold registers8 in Hk. simpl in Hk.
  decompose [or] Hk; subst; try contradiction; cbv zeta;
    unfold swap, resetFlags; simpl_op; destruct (_ =? 0); simpl_op; split; reflexivity.
Qed.

(** X6: on each of the seven 8-bit registers holding a byte, [swap]
    exchanges the two nibbles, leaves in [f] the Z flag alone, set
    exactly when the byte is 0, and applied twice gives the byte back. *)
Theorem swap_nibbles (key : keyof_IRegisterSet) (r : IRegisterSet) :
  In key registers8 -> byte r.[key] ->
  (swap r key).[key] = (r.[key] mod 16) * 16 + r.[key] / 16 /\
  (swap r key).(f) = (if r.[key] =? 0 then Flags.Z else 0) /\
  (swap (swap r key) key).[key] = r.[key].
Proof.
  intros Hk Hx. destruct (swap_byte r.[key] Hx) as (E1 & B1 & Z1 & E2). cbv zeta in *.
  destruct (swap_value key r Hk) as [Hs Hf]. cbv zeta in *.
  destruct (swap_value key (swap r key) Hk) as [Hs2 _]. cbv zeta in *.
  split; [rewrite Hs; exact E1|]. split.
  - rewrite Hf, js_and_255, Z.mod_small by (unfold byte in B1; lia). rewrite Z1. reflexivity.
  - rewrite Hs2, Hs. exact E2.
Qed.

Lemma swap_nibbles_witness :
  let r := Cpu_new.(_r).[kd <- 0xA5] in
  (swap r kd).[kd] = (r.[kd] mod 16) * 16 + r.[kd] / 16 /\
  (swap r kd).(f) = (if r.[kd] =? 0 then Flags.Z else 0) /\
  (swap (swap r kd) kd).[kd] = r.[kd].
Proof.
  apply (swap_nibbles kd (Cpu_new.(_r).[kd <- 0xA5])).
  - simpl. tauto.
  - vm_compute. split; discriminate.
Defined.

(** X7: on BC, DE and HL holding bytes, [inc2] adds one to the 16-bit
    value of the pair modulo 65536 (a low byte of 255 carries into the
    high byte) and changes no other register, [f] included. *)
Theorem inc2_pair (p : Pair) (r : IRegisterSet) :
  p <> AF -> byte r.[high p] -> byte r.[low p] ->
  let r' := inc2 r (high p) (low p) in
  word r'.[high p] r'.[low p] = (word r.[high p] r.[low p] + 1) mod 65536 /\
  (forall key, key <> high p -> key <> low p -> r'.[key] = r.[key]).
Proof.
  destruct r as [a0 b0 c0 d0 e0 h0 l0 f0 pc0 sp0].
  destruct p; intros Hp; try contradiction; unfold byte, word; cbn [high low get a b c d e h l f pc sp];
    intros Hh Hl; unfold inc2; simpl_op; rewrite !js_and_255;
    match goal with
    | |- context [if ?c then _ else _] => destruct c eqn:E
    end; simpl_op;
    [apply Z.eqb_eq in E | apply Z.eqb_neq in E | apply Z.eqb_eq in E | apply Z.eqb_neq in E
     | apply Z.eqb_eq in E | apply Z.eqb_neq in E];
    (split; [Z.div_mod_to_equations; lia | intros [] H1 H2; try reflexivity; contradiction]).
Qed.

Lemma inc2_pair_witness :
  let r := Cpu_new.(_r).[kh <- 0x00].[kl <- 0xFF] in
  let r' := inc2 r (high HL) (low HL) in
  word r'.[high HL] r'.[low HL] = (word r.[high HL] r.[low HL] + 1) mod 65536 /\
  (forall key, key <> high HL -> key <> low HL -> r'.[key] = r.[key]).
Proof.
  apply (inc2_pair HL (Cpu_new.(_r).[kh <- 0x00].[kl <- 0xFF]));
    [discriminate | vm_compute; split; discriminate ..].
Defined.

(** X8: [dec2] tests the new low byte against 0, not 255.  On BC, DE
    and HL holding bytes it subtracts one from the 16-bit value only
    when the low byte is at least 2; from a low byte of 0 the high byte
    is not borrowed from (the value goes up by 255), and from a low byte
    of 1 the high byte is decremented as well. *)
Theorem dec2_pair (p : Pair) (r : IRegisterSet) :
  p <> AF -> byte r.[high p] -> byte r.[low p] ->
  let r' := dec2 r (high p) (low p) in
  r'.[low p] = (r.[low p] - 1) mod 256 /\
  r'.[high p] = (if r.[low p] =? 1 then (r.[high p] - 1) mod 256 else r.[high p]) /\
  (2 <= r.[low p] -> word r'.[high p] r'.[low p] = word r.[high p] r.[low p] - 1) /\
  (r.[low p] = 0 -> word r'.[high p] r'.[low p] = word r.[high p] r.[low p] + 255) /\
  (forall key, key <> high p -> key <> low p -> r'.[key] = r.[key]).
Proof.
  destruct r as [a0 b0 c0 d0 e0 h0 l0 f0 pc0 sp0].
  destruct p; intros Hp; try contradiction; unfold byte, word; cbn [high low get a b c d e h l f pc sp];
    intros Hh Hl; unfold dec2; simpl_op; rewrite !js_and_255;
    match goal with
    | |- context [if ?c =? 0 then _ else _] => destruct (c =? 0) eqn:E
    end; simpl_op;
    [apply Z.eqb_eq in E | apply Z.eqb_neq in E | apply Z.eqb_eq in E | apply Z.eqb_neq in E
     | apply Z.eqb_eq in E | apply Z.eqb_neq in E];
    match goal with
    | |- context [?x =? 1] => destruct (x =? 1) eqn:E1;
        [apply Z.eqb_eq in E1 | apply Z.eqb_neq in E1]
    end;
    repeat split; try (Z.div_mod_to_equations; lia);
    try (intros [] H1 H2; try reflexivity; contradiction).
Qed.

Lemma dec2_pair_witness :
  let r := Cpu_new.(_r).[kb <- 0x01].[kc <- 0x00] in
  let r' := dec2 r (high BC) (low BC) in
  r'.[low BC] = (r.[low BC] - 1) mod 256 /\
  r'.[high BC] = (if r.[low BC] =? 1 then (r.[high BC] - 1) mod 256 else r.[high BC]) /\
  (2 <= r.[low BC] -> word r'.[high BC] r'.[low BC] = word r.[high BC] r.[low BC] - 1) /\
  (r.[low BC] = 0 -> word r'.[high BC] r'.[low BC] = word r.[high BC] r.[low BC] + 255) /\
  (forall key, key <> high BC -> key <> low BC -> r'.[key] = r.[key]).
Proof.
  apply (dec2_pair BC (Cpu_new.(_r).[kb <- 0x01].[kc <- 0x00]));
    [discriminate | vm_compute; split; discriminate ..].
Defined.

(** X11: every flag helper leaves [f] a byte with low nibble 0, whatever
    the registers, the operand, the key and the mask are. *)
Theorem helpers_keep_low_nibble_clear
    (r : IRegisterSet) (v max : Z) (key : keyof_IRegisterSet) :
  Forall (fun r' : IRegisterSet => byte r'.(f) /\ Z.land r'.(f) 0xF = 0)
    [resetFlags r v; add r v; sub r v; and_ r v; or_ r v; xor r v; cp r v;
     inc r key max; dec r key max; swap r key; addHl r v].
Proof.
  destruct r as [a0 b0 c0 d0 e0 h0 l0 f0 pc0 sp0].
  repeat (apply Forall_cons; split; [|]); [..|apply Forall_nil; exact I];
    destruct key; run_op; split; auto 6 with flag_ranges.
Qed.

(** ** Operations *)

Section MoreOperations.
Context {M : Type} `{!IMemory M}.

(** X9: LD A,(HL+) and LD (HL+),A first load or store at the address
    formed from h and l, then add one to the 16-bit value of HL modulo
    65536: a low byte of 255 carries into the high byte. *)
Theorem LD_HLI_increments_pair (r : IRegisterSet) (m : M) :
  byte r.(h) -> byte r.(l) ->
  let address := js_shl r.(h) (8 + r.(l)) in
  let '(_, r1, m1) := o.LD_A_HLI r m in
  let '(_, r2, m2) := o.LD_HLI_A r m in
  word r1.(h) r1.(l) = (word r.(h) r.(l) + 1) mod 65536 /\
  r1.(a) = rb m address /\ m1 = m /\
  word r2.(h) r2.(l) = (word r.(h) r.(l) + 1) mod 65536 /\
  r2.(a) = r.(a) /\ m2 = wb m address r.(a).
Proof.
  destruct r as [a0 b0 c0 d0 e0 h0 l0 f0 pc0 sp0]. unfold byte, word.
  cbn [a b c d e h l f pc sp]. intros Hh Hl. cbv zeta. simpl_op. rewrite !js_and_255.
  destruct ((l0 + 1) mod 256 =? 0) eqn:E; [apply Z.eqb_eq in E | apply Z.eqb_neq in E];
    simpl_op; repeat split; Z.div_mod_to_equations; lia.
Qed.

(** X10: LD A,(HL-) and LD (HL-),A first load or store at the address
    formed from h and l, then subtract one from the 16-bit value of HL
    modulo 65536: a low byte of 0 borrows from the high byte. *)
Theorem LD_HLD_decrements_pair (r : IRegisterSet) (m : M) :
  byte r.(h) -> byte r.(l) ->
  let address := js_shl r.(h) (8 + r.(l)) in
  let '(_, r1, m1) := o.LD_A_HLD r m in
  let '(_, r2, m2) := o.LD_HLD_A r m in
  word r1.(h) r1.(l) = (word r.(h) r.(l) - 1) mod 65536 /\
  r1.(a) = rb m address /\ m1 = m /\
  word r2.(h) r2.(l) = (word r.(h) r.(l) - 1) mod 65536 /\
  r2.(a) = r.(a) /\ m2 = wb m address r.(a).
Proof.
  destruct r as [a0 b0 c0 d0 e0 h0 l0 f0 pc0 sp0]. unfold byte, word.
  cbn [a b c d e h l f pc sp]. intros Hh Hl. cbv zeta. simpl_op. rewrite !js_and_255.
  destruct ((l0 - 1) mod 256 =? 255) eqn:E; [apply Z.eqb_eq in E | apply Z.eqb_neq in E];
    simpl_op; repeat split; Z.div_mod_to_equations; lia.
Qed.

(** X12: the four ADD HL operations compute a sum only to set the carry:
    they cost 2 cycles, leave the memory and every register but [f] as
    they were, HL included, and leave [f] either 0 or the C flag. *)
Theorem ADD_HL_never_writes_HL (r : IRegisterSet) (m : M) :
  Forall (fun op : IOperation M =>
            let '(cycles, r', m') := op r m in
            cycles = 2 /\ m' = m /\ (r' = r.[kf <- 0] \/ r' = r.[kf <- Flags.C]))
    [o.ADD_HL_BC; o.ADD_HL_DE; o.ADD_HL_HL; o.ADD_HL_SP].
Proof.
  destruct r as [a0 b0 c0 d0 e0 h0 l0 f0 pc0 sp0].
  repeat (apply Forall_cons; split; [|]); [..|apply Forall_nil; exact I];
    run_op; repeat split; (left; reflexivity) || (right; reflexivity).
Qed.

(** X13: ADC A,n reads the operand at pc, moves pc past it, and adds
    operand and carry-in to [a] modulo 256; C is set exactly when the
    sum exceeds 255, Z exactly when the new [a] is 0, N and H are
    clear; for bytes in [a], in [f] and at pc, and pc in 0..65535. *)
Theorem ADC_n_adds_carry (r : IRegisterSet) (m : M) :
  byte r.(a) -> byte r.(f) -> 0 <= r.(pc) <= 65535 -> byte (rb m r.(pc)) ->
  let n := rb m r.(pc) in
  let cin := if flag r Flags.C then 1 else 0 in
  let '(cycles, r', m') := o.ADC_n r m in
  cycles = 2 /\ m' = m /\ r'.(pc) = r.(pc) + 1 /\
  r'.(a) = (r.(a) + n + cin) mod 256 /\
  flag r' Flags.C = (255 <? r.(a) + n + cin) /\
  flag r' Flags.Z = (r'.(a) =? 0) /\
  flag r' Flags.N = false /\ flag r' Flags.H = false.
Proof.
  intros _ _ _ _.
  cbv zeta. unfold o.ADC_n, createOp, postinc. rewrite add_values.
  destruct r as [a0 b0 c0 d0 e0 h0 l0 f0 pc0 sp0]. unfold flag. cbn [get set a f pc].
  rewrite !Z.add_assoc.
  destruct (truthy (js_and f0 Flags.C));
    destruct ((a0 + rb m pc0 + _) mod 256 =? 0), (255 <? a0 + rb m pc0 + _);
    repeat split; reflexivity.
Qed.

(** X14: SBC A,B subtracts [b] and the carry-in from [a] modulo 256;
    C is set exactly when [a] is below [b] plus the carry-in, Z exactly
    when the new [a] is 0, N is set and H is clear; for bytes in [a],
    [b] and [f]. *)
Theorem SBC_B_subtracts_carry (r : IRegisterSet) (m : M) :
  byte r.(a) -> byte r.(b) -> byte r.(f) ->
  let cin := if flag r Flags.C then 1 else 0 in
  let '(cycles, r', m') := o.SBC_B r m in
  cycles = 1 /\ m' = m /\ r'.(pc) = r.(pc) /\
  r'.(a) = (r.(a) - (r.(b) + cin)) mod 256 /\
  flag r' Flags.C = (r.(a) <? r.(b) + cin) /\
  flag r' Flags.Z = (r'.(a) =? 0) /\
  flag r' Flags.N = true /\ flag r' Flags.H = false.
Proof.
  intros _ _ _.
  cbv zeta. unfold o.SBC_B, createOp.
  pose proof (sub_result r (r.(b) + (if truthy (js_and r.(f) Flags.C) then 1 else 0))) as H.
  cbv zeta in H. destruct H as (Ha & Hz & Hn & Hc & Hh & Hk).
  unfold flag at 1. repeat split; try assumption.
  apply (Hk kpc); discriminate.
Qed.

(** X15: LD HL,SP+n puts into HL the 16-bit value of sp plus the signed
    operand, modulo 65536, moves pc past the operand and leaves sp, [f]
    and the memory as they were. *)
Theorem LD_HL_SPn_adds_signed (r : IRegisterSet) (m : M) :
  0 <= r.(sp) <= 65535 -> byte (rb m r.(pc)) ->
  let '(cycles, r', m') := o.LD_HL_SPn r m in
  cycles = 3 /\ m' = m /\
  word r'.(h) r'.(l) = (r.(sp) + toSigned (rb m r.(pc))) mod 65536 /\
  r'.(pc) = r.(pc) + 1 /\ r'.(sp) = r.(sp) /\ r'.(f) = r.(f).
Proof.
  destruct r as [a0 b0 c0 d0 e0 h0 l0 f0 pc0 sp0]. cbn [sp pc]. intros Hsp Hn.
  pose proof (toSigned_range _ Hn) as Hs.
  simpl_op. rewrite !js_and_255. unfold js_sar, word. change (Z.land 8 31) with 8.
  rewrite ToInt32_small by lia. rewrite Z.shiftr_div_pow2 by lia. change (2 ^ 8) with 256.
  repeat split; Z.div_mod_to_equations; lia.
Qed.

(** The cost that an operation built by [createOp] returns. *)
Lemma createOp_cycles (g : IRegisterSet -> M -> IRegisterSet * M) (cycles : Z) r m :
  (createOp g cycles r m).1.1 = cycles.
Proof. unfold createOp. destruct (g r m). reflexivity. Qed.

(** Every populated slot of [oMap] has one cost, between 1 and 5,
    whatever the registers and the memory. *)
Lemma oMap_cycles :
  table_from (fun (_ : Z) (op : IOperation M) =>
                exists cost, 1 <= cost <= 5 /\ forall r m, (op r m).1.1 = cost) 0 oMap.
Proof.
  cbn [table_from oMap].
  repeat match goal with |- _ /\ _ => split end; try exact I.
  all: autounfold with ops; eexists; split; [|intros r m; apply createOp_cycles]; lia.
Qed.

Lemma index_None_outside {A : Type} (arr : list (option A)) (i : Z) :
  i < 0 \/ Z.of_nat (length arr) <= i -> index arr i = None.
Proof.
  intros Hi. unfold index. destruct (0 <=? i) eqn:E; [|reflexivity].
  apply Z.leb_le in E. rewrite (proj2 (lookup_ge_None arr (Z.to_nat i))); [reflexivity|lia].
Qed.

(** X16: on a populated slot [cycle] completes normally and adds to the
    clock exactly the cost of the operation in that slot, a constant of
    the slot between 1 and 5 whatever the registers and the memory; on
    an unpopulated slot it throws and leaves the clock as it was.  The
    clock is taken within the integers that a number counts exactly. *)
Theorem cycle_clock (this : Cpu) (m : M) :
  0 <= this.(_c) < 2 ^ 52 ->
  match index oMap (rb m this.(_r).(pc)) with
  | Some op =>
      exists cost, 1 <= cost <= 5 /\ (forall r m', (op r m').1.1 = cost) /\
        (cycle this m).1.1 = Normal /\ (cycle this m).1.2.(_c) = this.(_c) + cost
  | None =>
      (exists err, (cycle this m).1.1 = Throw err) /\ (cycle this m).1.2.(_c) = this.(_c)
  end.
Proof.
  intros _. destruct (index oMap (rb m this.(_r).(pc))) as [op|] eqn:Hop.
  - rewrite (cycle_Some this m op Hop).
    destruct (table_from_index _ oMap oMap_cycles _ _ Hop) as (cost & Hcost & Hop_cost).
    exists cost. split; [exact Hcost|]. split; [exact Hop_cost|].
    pose proof (Hop_cost (this.(_r).[kpc <- this.(_r).(pc) + 1]) m) as Hc.
    destruct (op _ m) as [[cycles r'] m']. cbn [fst snd _c] in *. subst cycles.
    split; reflexivity.
  - rewrite (cycle_None this m Hop). split; [eexists; reflexivity | reflexivity].
Qed.

(** X17: [cycle] completes normally only on an opcode that is a byte
    with a populated slot; a fetched value outside 0..255 makes it
    throw. *)
Theorem cycle_normal_opcode (this : Cpu) (m : M) :
  (cycle this m).1.1 = Normal ->
  byte (rb m this.(_r).(pc)) /\ index oMap (rb m this.(_r).(pc)) <> None.
Proof.
  intros Hn. destruct (index oMap (rb m this.(_r).(pc))) as [op|] eqn:Hop.
  - split; [|discriminate]. unfold byte.
    destruct (Z_lt_dec (rb m this.(_r).(pc)) 0) as [Hlt|Hge].
    + rewrite index_None_outside in Hop by (left; exact Hlt). discriminate.
    + destruct (Z_le_dec 256 (rb m this.(_r).(pc))) as [Hbig|Hsmall]; [|lia].
      rewrite index_None_outside in Hop by (right; exact Hbig). discriminate.
  - rewrite (cycle_None this m Hop) in Hn. discriminate.
Qed.

End MoreOperations.

Lemma LD_HLI_increments_pair_witness :
  let r := Cpu_new.(_r).[kh <- 0x00].[kl <- 0xFF].[ka <- 0x42] in
  let m := Mmu.new in
  let address := js_shl r.(h) (8 + r.(l)) in
  let '(_, r1, m1) := o.LD_A_HLI r m in
  let '(_, r2, m2) := o.LD_HLI_A r m in
  word r1.(h) r1.(l) = (word r.(h) r.(l) + 1) mod 65536 /\
  r1.(a) = rb m address /\ m1 = m /\
  word r2.(h) r2.(l) = (word r.(h) r.(l) + 1) mod 65536 /\
  r2.(a) = r.(a) /\ m2 = wb m address r.(a).
Proof.
  apply (LD_HLI_increments_pair (M := Mmu.Mmu)
           (Cpu_new.(_r).[kh <- 0x00].[kl <- 0xFF].[ka <- 0x42]) Mmu.new);
    vm_compute; split; discriminate.
Defined.

Lemma LD_HLD_decrements_pair_witness :
  let r := Cpu_new.(_r).[kh <- 0x00].[kl <- 0x00].[ka <- 0x42] in
  let m := Mmu.new in
  let address := js_shl r.(h) (8 + r.(l)) in
  let '(_, r1, m1) := o.LD_A_HLD r m in
  let '(_, r2, m2) := o.LD_HLD_A r m in
  word r1.(h) r1.(l) = (word r.(h) r.(l) - 1) mod 65536 /\
  r1.(a) = rb m address /\ m1 = m /\
  word r2.(h) r2.(l) = (word r.(h) r.(l) - 1) mod 65536 /\
  r2.(a) = r.(a) /\ m2 = wb m address r.(a).
Proof.
  apply (LD_HLD_decrements_pair (M := Mmu.Mmu)
           (Cpu_new.(_r).[kh <- 0x00].[kl <- 0x00].[ka <- 0x42]) Mmu.new);
    vm_compute; split; discriminate.
Defined.

Lemma LD_HL_SPn_adds_signed_witness :
  let r := Cpu_new.(_r).[ksp <- 0x0010].[kpc <- 0x0001] in
  let m := wb Mmu.new 0x0001 0xFE in
  let '(cycles, r', m') := o.LD_HL_SPn r m in
  cycles = 3 /\ m' = m /\
  word r'.(h) r'.(l) = (r.(sp) + toSigned (rb m r.(pc))) mod 65536 /\
  r'.(pc) = r.(pc) + 1 /\ r'.(sp) = r.(sp) /\ r'.(f) = r.(f).
Proof.
  apply (LD_HL_SPn_adds_signed (M := Mmu.Mmu)
           (Cpu_new.(_r).[ksp <- 0x0010].[kpc <- 0x0001]) (wb Mmu.new 0x0001 0xFE));
    vm_compute; split; discriminate.
Defined.

Lemma ADC_n_adds_carry_witness :
  let r := Cpu_new.(_r).[ka <- 0xF1].[kf <- 0x10].[kpc <- 0x0001] in
  let m := wb Mmu.new 0x0001 0x0F in
  let n := rb m r.(pc) in
  let cin := if flag r Flags.C then 1 else 0 in
  let '(cycles, r', m') := o.ADC_n r m in
  cycles = 2 /\ m' = m /\ r'.(pc) = r.(pc) + 1 /\
  r'.(a) = (r.(a) + n + cin) mod 256 /\
  flag r' Flags.C = (255 <? r.(a) + n + cin) /\
  flag r' Flags.Z = (r'.(a) =? 0) /\
  flag r' Flags.N = false /\ flag r' Flags.H = false.
Proof.
  apply (ADC_n_adds_carry (M := Mmu.Mmu)
           (Cpu_new.(_r).[ka <- 0xF1].[kf <- 0x10].[kpc <- 0x0001]) (wb Mmu.new 0x0001 0x0F));
    vm_compute; split; discriminate.
Defined.

Lemma SBC_B_subtracts_carry_witness :
  let r := Cpu_new.(_r).[ka <- 0x10].[kb <- 0x10].[kf <- 0x10] in
  let m := Mmu.new in
  let cin := if flag r Flags.C then 1 else 0 in
  let '(cycles, r', m') := o.SBC_B r m in
  cycles = 1 /\ m' = m /\ r'.(pc) = r.(pc) /\
  r'.(a) = (r.(a) - (r.(b) + cin)) mod 256 /\
  flag r' Flags.C = (r.(a) <? r.(b) + cin) /\
  flag r' Flags.Z = (r'.(a) =? 0) /\
  flag r' Flags.N = true /\ flag r' Flags.H = false.
Proof.
  apply (SBC_B_subtracts_carry (M := Mmu.Mmu)
           (Cpu_new.(_r).[ka <- 0x10].[kb <- 0x10].[kf <- 0x10]) Mmu.new);
    vm_compute; split; discriminate.
Defined.

Lemma cycle_clock_witness :
  let this := Cpu_new in
  let m := wb Mmu.new 0x0000 0x08 in
  exists cost, 1 <= cost <= 5 /\ (forall r m', (o.LD_nn_SP r m').1.1 = cost) /\
    (cycle this m).1.1 = Normal /\ (cycle this m).1.2.(_c) = this.(_c) + cost.
Proof.
  exact (cycle_clock (M := Mmu.Mmu) Cpu_new (wb Mmu.new 0x0000 0x08)
           ltac:(vm_compute; split; [discriminate | reflexivity])).
Defined.

Lemma cycle_normal_opcode_witness :
  byte (rb (tt : Mmu0.Mmu) Cpu_new.(_r).(pc)) /\
  index (oMap (M := Mmu0.Mmu)) (rb (tt : Mmu0.Mmu) Cpu_new.(_r).(pc)) <> None.
Proof. apply (cycle_normal_opcode (M := Mmu0.Mmu) Cpu_new tt). reflexivity. Defined.

(** ** The stack, further *)

Section MoreStack.
Context {M : Type} `{!IMemory M} `{!ByteStore M}.

(** What PUSH does to the registers and to the memory. *)
Lemma PUSH_effect (p : Pair) (r : IRegisterSet) (m : M) :
  0x0002 <= r.(sp) <= 0xFFFE -> byte r.[high p] -> byte r.[low p] ->
  let '(cycles, r1, m1) := PUSH p r m in
  cycles = 4 /\ r1 = r.[ksp <- r.(sp) - 2] /\
  rb m1 (r.(sp) - 1) = r.[high p] /\ rb m1 (r.(sp) - 2) = r.[low p] /\
  (forall address, address <> r.(sp) - 1 -> address <> r.(sp) - 2 ->
     rb m1 address = rb m address).
Proof.
  destruct r as [a0 b0 c0 d0 e0 h0 l0 f0 pc0 sp0]. cbn [sp]. intros Hsp Hhi Hlo.
  destruct p; cbn [high low get PUSH a b c d e h l f] in *; run_op;
    replace (sp0 - 1 - 1) with (sp0 - 2) by lia;
    (split; [reflexivity|]); (split; [reflexivity|]);
    (split; [rewrite rb_wb_other by lia; apply rb_wb_same; [lia|assumption]|]);
    (split; [apply rb_wb_same; [lia|assumption]|]);
    intros address H1 H2; rewrite !rb_wb_other by congruence; reflexivity.
Qed.

(** X18: PUSH of a pair holding bytes, with sp in 0x0002..0xFFFE, stores
    the high half at sp - 1 and the low half at sp - 2, leaves the other
    addresses as they read before, lowers sp by 2 and changes no other
    register. *)
Theorem PUSH_layout (p : Pair) (r : IRegisterSet) (m : M) :
  0x0002 <= r.(sp) <= 0xFFFE -> byte r.[high p] -> byte r.[low p] ->
  let '(cycles, r1, m1) := PUSH p r m in
  cycles = 4 /\ r1 = r.[ksp <- r.(sp) - 2] /\
  rb m1 (r.(sp) - 1) = r.[high p] /\ rb m1 (r.(sp) - 2) = r.[low p] /\
  (forall address, address <> r.(sp) - 1 -> address <> r.(sp) - 2 ->
     rb m1 address = rb m address).
Proof. exact (PUSH_effect p r m). Qed.

(** X19: PUSH of one pair followed by POP of any pair, with sp in
    0x0002..0xFFFE and bytes in the pushed pair, copies the pushed pair
    into the popped one, returns sp to its value and leaves every other
    register as it was. *)
Theorem PUSH_POP_copies_pair (p q : Pair) (r : IRegisterSet) (m : M) :
  0x0002 <= r.(sp) <= 0xFFFE -> byte r.[high p] -> byte r.[low p] ->
  let '(_, r1, m1) := PUSH p r m in
  let '(_, r2, _) := POP q r1 m1 in
  r2.[high q] = r.[high p] /\ r2.[low q] = r.[low p] /\
  (forall key, key <> high q -> key <> low q -> r2.[key] = r.[key]).
Proof.
  intros Hsp Hhi Hlo. pose proof (PUSH_effect p r m Hsp Hhi Hlo) as HP.
  destruct (PUSH p r m) as [[cycles r1] m1]. destruct HP as (_ & -> & Eh & El & _).
  destruct r as [a0 b0 c0 d0 e0 h0 l0 f0 pc0 sp0]. cbn [sp set] in *.
  destruct q; cbn [high low get POP a b c d e h l f] in *; run_op;
    replace (sp0 - 2 + 1 + 1) with sp0 by lia;
    replace (sp0 - 2 + 1) with (sp0 - 1) by lia;
    (split; [exact Eh|]); (split; [exact El|]);
    intros [] H1 H2; try reflexivity; contradiction.
Qed.

End MoreStack.

Lemma PUSH_layout_witness :
  let r := Cpu_new.(_r).[kd <- 0x12].[ke <- 0x34].[ksp <- 0x0002] in
  let '(cycles, r1, m1) := PUSH DE r Mmu.new in
  cycles = 4 /\ r1 = r.[ksp <- r.(sp) - 2] /\
  rb m1 (r.(sp) - 1) = r.[high DE] /\ rb m1 (r.(sp) - 2) = r.[low DE] /\
  (forall address, address <> r.(sp) - 1 -> address <> r.(sp) - 2 ->
     rb m1 address = rb Mmu.new address).
Proof.
  apply (PUSH_layout (M := Mmu.Mmu) DE
           (Cpu_new.(_r).[kd <- 0x12].[ke <- 0x34].[ksp <- 0x0002]) Mmu.new);
    vm_compute; split; discriminate.
Defined.

Lemma PUSH_POP_copies_pair_witness :
  let r := Cpu_new.(_r).[kb <- 0x12].[kc <- 0x34].[ksp <- 0xFFFE] in
  let '(_, r1, m1) := PUSH BC r Mmu.new in
  let '(_, r2, _) := POP HL r1 m1 in
  r2.[high HL] = r.[high BC] /\ r2.[low HL] = r.[low BC] /\
  (forall key, key <> high HL -> key <> low HL -> r2.[key] = r.[key]).
Proof.
  apply (PUSH_POP_copies_pair (M := Mmu.Mmu) BC HL
           (Cpu_new.(_r).[kb <- 0x12].[kc <- 0x34].[ksp <- 0xFFFE]) Mmu.new);
    vm_compute; split; discriminate.
Defined.

(** ** The second memory management unit, further *)

Lemma Mmu_in_array address : 0 <= address <= 65535 -> Mmu.in_array address = true.
Proof.
  intros Ha. unfold Mmu.in_array. apply andb_true_iff.
  split; [apply Z.leb_le | apply Z.ltb_lt]; lia.
Qed.

Lemma Mmu_outside_array address : address < 0 \/ 65535 < address -> Mmu.in_array address = false.
Proof.
  intros Ha. unfold Mmu.in_array. apply andb_false_iff.
  destruct Ha; [left; apply Z.leb_gt | right; apply Z.ltb_ge]; lia.
Qed.

Lemma Mmu_rb_wb (this : Mmu.Mmu) (address value : Z) :
  0 <= address <= 65535 -> rb (wb this address value) address = value mod 256.
Proof.
  intros Ha. simpl. unfold Mmu.rb, Mmu.wb, Mmu.load_element, Mmu.store_element. simpl.
  rewrite (Mmu_in_array address Ha), Z.eqb_refl. reflexivity.
Qed.

(** X20: a byte store inside the array keeps the value modulo 256, and
    the byte read back is in 0..255 whatever integer was stored. *)
Theorem Mmu_wb_reduces_value (this : Mmu.Mmu) (address value : Z) :
  0 <= address <= 65535 ->
  rb (wb this address value) address = value mod 256 /\
  byte (rb (wb this address value) address).
Proof.
  intros Ha. rewrite (Mmu_rb_wb this address value Ha). split; [reflexivity|].
  unfold byte. pose proof (Z.mod_pos_bound value 256). lia.
Qed.

Lemma Mmu_wb_reduces_value_witness :
  rb (wb Mmu.new 0xC000 0x1FF) 0xC000 = 0x1FF mod 256 /\
  byte (rb (wb Mmu.new 0xC000 0x1FF) 0xC000).
Proof. apply (Mmu_wb_reduces_value Mmu.new 0xC000 0x1FF). lia. Defined.

(** X21: a byte store at an address outside 0..65535 leaves the memory
    as it was. *)
Theorem Mmu_wb_outside_ignored (this : Mmu.Mmu) (address value : Z) :
  address < 0 \/ 65535 < address -> wb this address value = this.
Proof.
  intros Ha. destruct this as [arr]. simpl. unfold Mmu.wb, Mmu.store_element. simpl.
  rewrite (Mmu_outside_array address Ha). reflexivity.
Qed.

Lemma Mmu_wb_outside_ignored_witness : wb Mmu.new 0x10000 0xAB = Mmu.new.
Proof. apply (Mmu_wb_outside_ignored Mmu.new 0x10000 0xAB). right. lia. Defined.

(** X22: a word store of a 16-bit value at an address in 0..65534 puts
    the low byte at the address and the high byte at the next one, and
    leaves the other addresses as they read before. *)
Theorem Mmu_ww_little_endian (this : Mmu.Mmu) (address value : Z) :
  0 <= address <= 65534 -> 0 <= value <= 65535 ->
  rb (ww this address value) address = value mod 256 /\
  rb (ww this address value) (address + 1) = value / 256 /\
  (forall address', address' <> address -> address' <> address + 1 ->
     rb (ww this address value) address' = rb this address').
Proof.
  intros Ha Hv.
  assert (E : ww this address value =
              wb (wb this address (js_and value 255)) (address + 1) (js_sar value 8))
    by reflexivity.
  rewrite E. repeat split.
  - rewrite rb_wb_other by lia. rewrite Mmu_rb_wb by lia. rewrite js_and_255.
    apply Z.mod_mod. lia.
  - rewrite Mmu_rb_wb by lia. unfold js_sar. change (Z.land 8 31) with 8.
    rewrite ToInt32_small by lia. rewrite Z.shiftr_div_pow2 by lia. change (2 ^ 8) with 256.
    apply Z.mod_small. Z.div_mod_to_equations. lia.
  - intros address' H1 H2. rewrite !rb_wb_other by congruence. reflexivity.
Qed.

Lemma Mmu_ww_little_endian_witness :
  rb (ww Mmu.new 0xC000 0x1234) 0xC000 = 0x1234 mod 256 /\
  rb (ww Mmu.new 0xC000 0x1234) (0xC000 + 1) = 0x1234 / 256 /\
  (forall address', address' <> 0xC000 -> address' <> 0xC000 + 1 ->
     rb (ww Mmu.new 0xC000 0x1234) address' = rb Mmu.new address').
Proof. apply (Mmu_ww_little_endian Mmu.new 0xC000 0x1234); lia. Defined.

(** X23: a word read takes the byte at the address for both halves, so
    after a word store at an address in 0..65535 the word read there is
    257 times the low byte of the value: the value itself only when its
    two bytes are equal. *)
Theorem Mmu_rw_repeats_low_byte (this : Mmu.Mmu) (address value : Z) :
  0 <= address <= 65535 ->
  rw (ww this address value) address = (value mod 256) * 257.
Proof.
  intros Ha.
  assert (E : rb (ww this address value) address = value mod 256).
  { change (ww this address value)
      with (wb (wb this address (js_and value 255)) (address + 1) (js_sar value 8)).
    rewrite rb_wb_other by lia. rewrite Mmu_rb_wb by lia. rewrite js_and_255.
    apply Z.mod_mod. lia. }
  change (rw (ww this address value) address)
    with (rb (ww this address value) address + js_shl (rb (ww this address value) address) 8).
  rewrite E. pose proof (Z.mod_pos_bound value 256).
  rewrite js_shl_byte_8 by (unfold byte; lia). lia.
Qed.

Lemma Mmu_rw_repeats_low_byte_witness :
  rw (ww Mmu.new 0xC000 0x1234) 0xC000 = (0x1234 mod 256) * 257.
Proof. apply (Mmu_rw_repeats_low_byte Mmu.new 0xC000 0x1234). lia. Defined.

(** ** The GPU timing, further *)

Lemma step_clock_bound (s : Gpu) (cycles : Z) :
  (step s cycles).1.(_modeclock) < threshold (step s cycles).1.(_mode).
Proof.
  destruct s as [mode clock line]. unfold threshold, step, _renderScan.
  cbn [_mode _modeclock _line].
  destruct mode;
    repeat match goal with
           | |- context [if ?c then _ else _] => destruct c eqn:?
           end; cbn [fst _modeclock _mode];
    repeat match goal with
           | H : (_ <=? _) = false |- _ => apply Z.leb_gt in H
           end; lia.
Qed.

(** X24: after any call of [step], whatever the state and the cycle
    count, the clock is below the budget of the mode the call ends in. *)
Theorem step_clock_below_threshold (s : Gpu) (cycles : Z) :
  (step s cycles).1.(_modeclock) < threshold (step s cycles).1.(_mode).
Proof. exact (step_clock_bound s cycles). Qed.

(** X25: [step] writes to the console only on the transition from
    VramRead to HBlank, and then the single line of [_renderScan]. *)
Theorem step_console (s : Gpu) (cycles : Z) :
  (step s cycles).2 =
    match s.(_mode) with
    | VramRead => if 172 <=? s.(_modeclock) + cycles then ["Gpu._renderScan"%string] else []
    | _ => []
    end.
Proof.
  destruct s as [mode clock line]. unfold step, _renderScan. cbn [_mode _modeclock _line].
  destruct mode;
    repeat match goal with
           | |- context [if ?c then _ else _] => destruct c
           end; reflexivity.
Qed.

Lemma run_log_acc (cycles : list Z) :
  forall (s : Gpu) (out : list string),
    fold_left (fun acc n => let '(s', o') := step (fst acc) n in (s', snd acc ++ o'))
      cycles (s, out)
    = (fst (run_log s cycles), out ++ snd (run_log s cycles)).
Proof.
  unfold run_log. induction cycles as [|n cycles IH]; intros s out.
  - simpl. rewrite app_nil_r. reflexivity.
  - simpl. destruct (step s n) as [s' o']. rewrite (IH s' (out ++ o')), (IH s' o').
    simpl. rewrite app_assoc. reflexivity.
Qed.

Lemma run_log_app (s : Gpu) (cycles1 cycles2 : list Z) :
  run_log s (cycles1 ++ cycles2) =
    (fst (run_log (fst (run_log s cycles1)) cycles2),
     snd (run_log s cycles1) ++ snd (run_log (fst (run_log s cycles1)) cycles2)).
Proof.
  unfold run_log at 1. rewrite fold_left_app. fold (run_log s cycles1).
  destruct (run_log s cycles1) as [s1 out1]. apply run_log_acc.
Qed.

Lemma run_log_scanline (line : Z) :
  line + 1 <> 143 ->
  run_log {| _mode := OamRead; _modeclock := 0; _line := line |} scanline =
    ({| _mode := OamRead; _modeclock := 0; _line := line + 1 |}, ["Gpu._renderScan"%string]).
Proof.
  intros Hl. unfold run_log, scanline, step, _renderScan. simpl.
  destruct (Z.eqb_spec (line + 1) 143) as [E|E]; [contradiction|reflexivity].
Qed.

(** X26: from {OamRead, 0, line}, n whole scanlines of calls that each
    spend exactly the budget of the current mode (80, 172, 204) end in
    {OamRead, 0, line + n} and write one console line per scanline, as
    long as line + n stays at or below 142. *)
Theorem scanlines_advance_line (line : Z) (n : nat) :
  0 <= line -> line + Z.of_nat n <= 142 ->
  run_log {| _mode := OamRead; _modeclock := 0; _line := line |}
    (concat (replicate n scanline)) =
    ({| _mode := OamRead; _modeclock := 0; _line := line + Z.of_nat n |},
     replicate n "Gpu._renderScan"%string).
Proof.
  revert line. induction n as [|n IH]; intros line Hl Hn.
  - replace (line + Z.of_nat 0) with line by lia. reflexivity.
  - change (concat (replicate (S n) scanline))
      with (scanline ++ concat (replicate n scanline)).
    rewrite run_log_app, run_log_scanline by lia. cbn [fst snd].
    rewrite IH by lia. cbn [fst snd].
    replace (line + 1 + Z.of_nat n) with (line + Z.of_nat (S n)) by lia. reflexivity.
Qed.

Lemma scanlines_advance_line_witness :
  run_log {| _mode := OamRead; _modeclock := 0; _line := 0 |}
    (concat (replicate 142 scanline)) =
    ({| _mode := OamRead; _modeclock := 0; _line := 0 + Z.of_nat 142 |},
     replicate 142 "Gpu._renderScan"%string).
Proof. apply (scanlines_advance_line 0 142); lia. Defined.

(** A whole frame in such calls: 143 scanlines and 11 lines of VBlank,
    440 calls and 154 * 456 = 70224 cycles, back to {OamRead, 0, 0}. *)
Lemma frame_round_trip :

  let s0 := {| _mode := OamRead; _modeclock := 0; _line := 0 |} in
  run_log s0 frame_schedule = (s0, replicate 143 "Gpu._renderScan"%string) /\
  foldr Z.add 0 frame_schedule = 70224 /\ 154 * 456 = 70224 /\
  length frame_schedule = 440%nat.
Proof. vm_compute. repeat split. Qed.

Lemma step_line_inv (s : Gpu) (cycles : Z) : line_inv s -> line_inv (step s cycles).1.
Proof.
  destruct s as [mode clock line]. unfold line_inv, step, _renderScan.
  cbn [_mode _modeclock _line].
  destruct mode; intros Hl;
    repeat match goal with
           | |- context [if ?c then _ else _] => destruct c eqn:?
           end; cbn [fst _mode _line]; lia.
Qed.

Lemma step_clock_nonneg (s : Gpu) (cycles : Z) :
  0 <= s.(_modeclock) -> 0 <= cycles -> 0 <= (step s cycles).1.(_modeclock).
Proof.
  destruct s as [mode clock line]. unfold step, _renderScan. cbn [_mode _modeclock _line].
  intros Hc Hk.
  destruct mode;
    repeat match goal with
           | |- context [if ?c then _ else _] => destruct c
           end; cbn [fst _modeclock]; lia.
Qed.

(** X27: in every state that non-negative cycle counts reach from the
    constructed [Gpu], the line is within 0..153, VBlank holds exactly
    when the line is 143 or more, and the clock is non-negative and
    below the budget of the mode. *)
Theorem Gpu_new_invariant (s : Gpu) :
  reachable Gpu_new s ->
  0 <= s.(_line) <= 153 /\
  (s.(_mode) = VBlank <-> 143 <= s.(_line)) /\
  0 <= s.(_modeclock) < threshold s.(_mode).
Proof.
  intros Hr.
  assert (H : line_inv s /\ 0 <= s.(_modeclock) < threshold s.(_mode)).
  { induction Hr as [|s cycles Hs IH Hc].
    - unfold line_inv. simpl. lia.
    - destruct IH as [IL IC]. split; [apply step_line_inv; exact IL|].
      split; [apply step_clock_nonneg; lia | apply step_clock_bound]. }
  destruct H as [HL HC]. unfold line_inv in HL.
  destruct s as [mode clock line]. cbn [_mode _modeclock _line] in *.
  destruct mode; repeat split; try lia; try discriminate; intros; try reflexivity; lia.
Qed.

Lemma Gpu_new_invariant_witness :
  let s := (step Gpu_new 204).1 in
  0 <= s.(_line) <= 153 /\
  (s.(_mode) = VBlank <-> 143 <= s.(_line)) /\
  0 <= s.(_modeclock) < threshold s.(_mode).
Proof.
  apply (Gpu_new_invariant (step Gpu_new 204).1).
  apply reachable_step; [apply reachable_init | lia].
Defined.
